(** * apply_dark_theme.py: the rule-based text rewriter

    A shallow embedding of [src/apply_dark_theme.py]: the ordered
    [REPLACEMENTS] table, the substitution pass built on [re.sub], the
    per-file function [apply_dark_theme] with its [try]/[except] boundary,
    and the batch driver under [__main__].

    Texts are [string]s: a Python [str] is a sequence of characters, here
    taken over the 8-bit alphabet [ascii].  The double quote character is
    written [dq], so that no literal of this file has to escape it.

    The first part holds the definitions: the program, then the notions the
    statements are written with.  The second part holds the lemmas and, at
    the end, one theorem for each claim. *)

From stdpp Require Import gmap strings list.
From Stdlib Require Import Ascii Lia.

#[local] Arguments String.append : simpl nomatch.
#[local] Open Scope stdpp_scope.

(** * Part I: the program *)

(** ** Strings *)

Module Str.

Definition dq : string := String "034"%char EmptyString.

(** [q s] is [s] between double quotes. *)
Definition q (s : string) : string := dq +:+ s +:+ dq.

(** [s[n:]] *)
Fixpoint drop (n : nat) (s : string) : string :=
  match n, s with
  | S n', String _ t => drop n' t
  | _, _ => s
  end.

(** [s.startswith(p)] *)
Fixpoint startswith (p s : string) : bool :=
  match p, s with
  | EmptyString, _ => true
  | String a p', String b s' => bool_decide (a = b) && startswith p' s'
  | String _ _, EmptyString => false
  end.

Definition is_empty (s : string) : bool :=
  match s with EmptyString => true | String _ _ => false end.

Fixpoint all (f : ascii -> bool) (s : string) : bool :=
  match s with
  | EmptyString => true
  | String c t => f c && all f t
  end.

End Str.

Import Str.

(** ** The rule table (source lines 9-42) *)

Definition REPLACEMENTS : list (string * string) :=
  [ (* Container principal *)
    ("className=" +:+ q "min-h-screen bg-gray-50",
     "className=" +:+ q "min-h-screen bg-black text-white");
    (* Cards basicos *)
    ("<Card className=" +:+ dq +:+ "hover:shadow-lg",
     "<Card className=" +:+ dq +:+ "bg-white/5 backdrop-blur-sm border-white/10 hover:shadow-lg");
    ("<Card>",
     "<Card className=" +:+ q "bg-white/5 backdrop-blur-sm border-white/10" +:+ ">");
    ("<Card className=" +:+ dq,
     "<Card className=" +:+ dq +:+ "bg-white/5 backdrop-blur-sm border-white/10 ");
    (* Bordas *)
    ("border-gray-100", "border-white/10");
    ("border-gray-200", "border-white/10");
    ("divide-gray-100", "divide-white/10");
    ("divide-gray-200", "divide-white/10");
    (* Backgrounds *)
    ("bg-gray-50", "bg-white/5");
    ("bg-gray-100", "bg-white/5");
    ("bg-white", "bg-white/5");
    ("bg-gray-200", "bg-white/10");
    (* Textos *)
    ("text-gray-900", "text-white");
    ("text-gray-700", "text-gray-400");
    ("text-gray-600", "text-gray-400");
    (* Hover states *)
    ("hover:bg-gray-50", "hover:bg-white/5 transition-colors");
    ("hover:bg-gray-100", "hover:bg-white/10 transition-colors");
    (* Table headers *)
    ("className=" +:+ q "bg-gray-50", "className=" +:+ q "bg-white/5");
    ("text-gray-500 uppercase", "text-gray-400 uppercase")
  ].

(** ** Python exceptions and the error monad *)

Inductive exn :=
| FileNotFoundError
| PermissionError
| UnicodeDecodeError
| UnicodeEncodeError
| ValueError
| OSError
| re_error
| NotModelled.   (* the call leaves the fragment of [re] described below *)

Inductive result (A : Type) :=
| Ok (a : A)
| Raise (e : exn).
Arguments Ok {A} a.
Arguments Raise {A} e.

#[global] Instance result_ret : MRet result := fun A a => Ok a.

#[global] Instance result_bind : MBind result := fun A B k m =>
  match m with
  | Ok a => k a
  | Raise e => Raise e
  end.

(** [for x in xs: acc = f(acc, x)] where [f] may raise. *)
Fixpoint for_each {A B} (f : A -> B -> result A) (xs : list B) (acc : A) : result A :=
  match xs with
  | [] => Ok acc
  | x :: xs' => acc' ← f acc x; for_each f xs' acc'
  end.

(** ** The fragment of Python's [re] module that [re.sub] is used on

    Patterns made of characters that match themselves, the dot, groups,
    alternation and the greedy operators [*], [+] and [?]; no flags.  A
    pattern or a template outside this fragment raises [NotModelled]. *)

Module Re.

Inductive regex :=
| Eps
| Chr (c : ascii)
| Dot
| Seq (a b : regex)
| Alt (a b : regex)
| Star (a : regex).

(** The special characters of the pattern syntax are
    [. ^ $ * + ? { } [ ] \ | ( )]; every other character matches itself. *)
Inductive token :=
| TLit | TDot | TStar | TPlus | TQuest | TBar | TOpen | TClose | TOther.

Definition classify (c : ascii) : token :=
  if bool_decide (c = "."%char) then TDot
  else if bool_decide (c = "*"%char) then TStar
  else if bool_decide (c = "+"%char) then TPlus
  else if bool_decide (c = "?"%char) then TQuest
  else if bool_decide (c = "|"%char) then TBar
  else if bool_decide (c = "("%char) then TOpen
  else if bool_decide (c = ")"%char) then TClose
  else if bool_decide (c = "^"%char) || bool_decide (c = "$"%char)
       || bool_decide (c = "{"%char) || bool_decide (c = "}"%char)
       || bool_decide (c = "["%char) || bool_decide (c = "]"%char)
       || bool_decide (c = "\"%char) then TOther
  else TLit.

Definition is_special (c : ascii) : bool :=
  match classify c with TLit => false | _ => true end.

(** *** Parsing a pattern

    A one-pass parser with an explicit stack of open groups.  A frame
    holds the finished alternatives of a group and the items of the
    alternative being read, both most recent first; an item carries a
    flag telling whether a repetition operator was already applied. *)

Record frame := Frame { alts : list regex; items : list (regex * bool) }.

Definition empty_frame : frame := Frame [] [].

Definition seq_of (its : list (regex * bool)) : regex :=
  foldl (fun acc it => Seq (fst it) acc) Eps its.

Definition alt_of (f : frame) : regex :=
  foldl (fun acc a => Alt a acc) (seq_of (items f)) (alts f).

Definition push (it : regex * bool) (f : frame) : frame :=
  Frame (alts f) (it :: items f).

Definition repeat_last (op : regex -> regex) (f : frame) : option frame :=
  match items f with
  | (a, false) :: its => Some (Frame (alts f) ((op a, true) :: its))
  | _ => None       (* nothing to repeat, or a second operator *)
  end.

(** What a repetition operator raises when [repeat_last] has no item for
    it: an error at the start of an alternative, and otherwise a second
    operator, which is outside the fragment. *)
Definition no_repeat (f : frame) : exn :=
  match items f with
  | [] => re_error
  | _ :: _ => NotModelled
  end.

Fixpoint parse_go (stack : list frame) (cur : frame) (s : string) : result regex :=
  match s with
  | EmptyString =>
      match stack with
      | [] => Ok (alt_of cur)
      | _ :: _ => Raise re_error        (* missing ) *)
      end
  | String c s' =>
      match classify c with
      | TLit => parse_go stack (push (Chr c, false) cur) s'
      | TDot => parse_go stack (push (Dot, false) cur) s'
      | TStar =>
          match repeat_last Star cur with
          | Some cur' => parse_go stack cur' s'
          | None => Raise (no_repeat cur)
          end
      | TPlus =>
          match repeat_last (fun a => Seq a (Star a)) cur with
          | Some cur' => parse_go stack cur' s'
          | None => Raise (no_repeat cur)
          end
      | TQuest =>
          match repeat_last (fun a => Alt a Eps) cur with
          | Some cur' => parse_go stack cur' s'
          | None => Raise (no_repeat cur)
          end
      | TBar => parse_go stack (Frame (seq_of (items cur) :: alts cur) []) s'
      | TOpen =>
          match s' with
          | String "?"%char _ => Raise NotModelled      (* extension notation *)
          | _ => parse_go (cur :: stack) empty_frame s'
          end
      | TClose =>
          match stack with
          | [] => Raise re_error          (* unbalanced parenthesis *)
          | f :: stack' => parse_go stack' (push (alt_of cur, false) f) s'
          end
      | TOther => Raise NotModelled
      end
  end.

(** [re.compile(pattern)] *)
Definition compile (pattern : string) : result regex :=
  parse_go [] empty_frame pattern.

(** *** Matching

    [matches r s] lists, in the order in which the backtracking matcher
    finds them, the rests of [s] after a match of [r] at its start.  A
    repetition is greedy, and an iteration that consumed nothing ends
    it. *)

Definition newline : ascii := "010"%char.

Fixpoint matches (r : regex) (s : string) : list string :=
  match r with
  | Eps => [s]
  | Chr c =>
      match s with
      | String d t => if bool_decide (c = d) then [t] else []
      | EmptyString => []
      end
  | Dot =>
      match s with
      | String d t => if bool_decide (d = newline) then [] else [t]
      | EmptyString => []
      end
  | Seq a b => flat_map (matches b) (matches a s)
  | Alt a b => matches a s ++ matches b s
  | Star a =>
      (fix star (n : nat) (s : string) {struct n} : list string :=
         match n with
         | O => [s]
         | S n' =>
             flat_map (fun s' => if String.length s' <? String.length s
                                 then star n' s' else [s'])
                      (matches a s) ++ [s]
         end) (String.length s) s
  end.

(** The length of the first match at the start of [s], the empty match
    excluded when [must_advance] is set. *)
Definition first_match (must_advance : bool) (r : regex) (s : string) : option nat :=
  match filter (fun rest => negb must_advance || (String.length rest <? String.length s))%bool
               (matches r s) with
  | rest :: _ => Some (String.length s - String.length rest)
  | [] => None
  end.

(** *** The replacement template

    In [repl] a backslash starts an escape or a group reference; any
    other character stands for itself. *)
Definition expand_template (repl : string) : result string :=
  if Str.all (fun c => negb (bool_decide (c = "\"%char))) repl then Ok repl
  else Raise NotModelled.

(** *** Substitution

    [sub_go r t k s] scans [s] from left to right, [k] being the number
    of characters still covered by the last match.  Where the first
    match is empty, the replacement is emitted and the matcher is tried
    again at the same place for a match that advances. *)
Fixpoint sub_go (r : regex) (t : string) (k : nat) (s : string) : string :=
  match k with
  | S k' =>
      match s with
      | String _ s' => sub_go r t k' s'
      | EmptyString => EmptyString
      end
  | O =>
      match s with
      | EmptyString =>
          match first_match false r s with
          | Some _ => t
          | None => EmptyString
          end
      | String c s' =>
          match first_match false r s with
          | None => String c (sub_go r t 0 s')
          | Some (S n) => t +:+ sub_go r t n s'
          | Some O =>
              t +:+ match first_match true r s with
                    | Some (S n) => t +:+ sub_go r t n s'
                    | _ => String c (sub_go r t 0 s')
                    end
          end
      end
  end.

(** [re.sub(pattern, repl, text)] *)
Definition sub (pattern repl text : string) : result string :=
  r ← compile pattern;
  t ← expand_template repl;
  Ok (sub_go r t 0 text).

End Re.

(** ** The pass over the rule table (source lines 55-56)

    [for old, new in REPLACEMENTS: content = re.sub(old, new, content)] *)

Definition transform (content : string) : result string :=
  for_each (fun content rule => Re.sub rule.1 rule.2 content) REPLACEMENTS content.

(** ** Files

    A file is kept as what text-mode I/O with [encoding='utf-8'] sees of
    it: its text, or no text when its bytes do not decode, and whether it
    may be opened for reading and for writing. *)

Record file := File { readable : bool; writable : bool; text : option string }.

(** [open(filepath, 'r', encoding='utf-8')] followed by [f.read()] *)
Definition read_text (fs : gmap string file) (filepath : string) : result string :=
  match fs !! filepath with
  | None => Raise FileNotFoundError
  | Some f =>
      if readable f
      then match text f with
           | Some content => Ok content
           | None => Raise UnicodeDecodeError
           end
      else Raise PermissionError
  end.

(** [open(filepath, 'w', encoding='utf-8')] followed by [f.write(content)];
    mode ['w'] creates a missing file. *)
Definition write_text (fs : gmap string file) (filepath content : string)
  : result (gmap string file) :=
  match fs !! filepath with
  | None => Ok (<[filepath := File true true (Some content)]> fs)
  | Some f =>
      if writable f
      then Ok (<[filepath := File (readable f) (writable f) (Some content)]> fs)
      else Raise PermissionError
  end.

(** ** What the program does to the outside: lines printed, files written *)

Inductive line :=
| Processando (filepath : string)          (* Processando {filepath}... *)
| Atualizado (filepath : string)           (* {filepath} atualizado com sucesso! *)
| JaAtualizado (filepath : string)         (* {filepath} ja esta atualizado *)
| Erro (filepath : string) (e : exn)       (* Erro ao processar {filepath}: {e} *)
| Aplicando                                (* Aplicando tema escuro nas paginas... *)
| Concluido (updated : nat).               (* Concluido! {updated} arquivo(s) atualizado(s). *)

Inductive event :=
| Print (l : line)
| Write (filepath content : string)      (* the file now holds [content] *)
| Torn (filepath : string) (leftover : option string).     (* a write that failed on the way *)

(** ** [apply_dark_theme] (source lines 44-70)

    First on a console that prints every line and a disk that completes
    every write it accepts: [print] cannot raise, and a write is done or
    refused as a whole.  Module [Os] below has the same function with a
    console and a disk that can fail, and agrees with this one where they
    do not. *)

(** The body of the [try] block. *)
Definition apply_dark_theme_try (fs : gmap string file) (filepath : string)
  : result (gmap string file * list event * bool) :=
  content ← read_text fs filepath;
  let original_content := content in
  content ← transform content;
  if bool_decide (content ≠ original_content) then
    fs' ← write_text fs filepath content;
    Ok (fs', [Write filepath content; Print (Atualizado filepath)], true)
  else
    Ok (fs, [Print (JaAtualizado filepath)], false).

(** The first [print], the [try] block, and [except Exception as e]. *)
Definition apply_dark_theme (fs : gmap string file) (filepath : string)
  : gmap string file * list event * bool :=
  match apply_dark_theme_try fs filepath with
  | Ok (fs', out, ret) => (fs', Print (Processando filepath) :: out, ret)
  | Raise e => (fs, [Print (Processando filepath); Print (Erro filepath e)], false)
  end.

(** ** The batch driver (source lines 72-90) *)

Definition files_to_process : list string :=
  [ "c:\Projeto barbearia\src\pages\DashboardVendas.tsx";
    "c:\Projeto barbearia\src\pages\DashboardProfissionais.tsx";
    "c:\Projeto barbearia\src\pages\DashboardServicos.tsx";
    "c:\Projeto barbearia\src\pages\DashboardClientes.tsx";
    "c:\Projeto barbearia\src\pages\DashboardAgendamentos.tsx";
    "c:\Projeto barbearia\src\pages\Agendamentos.tsx";
    "c:\Projeto barbearia\src\pages\Servicos.tsx";
    "c:\Projeto barbearia\src\pages\Profissionais.tsx" ].

(** The [for filepath in files_to_process] loop, from a state of the files
    and a value of [updated]. *)
Fixpoint batch (files : list string) (fs : gmap string file) (updated : nat)
  : gmap string file * list event * nat :=
  match files with
  | [] => (fs, [], updated)
  | filepath :: rest =>
      let '(fs1, out1, ret) := apply_dark_theme fs filepath in
      let '(fs2, out2, n) := batch rest fs1 (if ret then updated + 1 else updated) in
      (fs2, out1 ++ out2, n)
  end.

Definition main_on (files : list string) (fs : gmap string file)
  : gmap string file * list event :=
  let '(fs', out, updated) := batch files fs 0 in
  (fs', Print Aplicando :: out ++ [Print (Concluido updated)]).

Definition main (fs : gmap string file) : gmap string file * list event :=
  main_on files_to_process fs.

(** * Part I, continued: the notions the statements are written with *)

(** ** Literal replacement: Python's [str.replace]

    The plain, regex-free substitution against which the rule table is
    compared.  [replace_go old new k s] scans [s] with [k] characters of
    the last occurrence still to skip. *)

Fixpoint replace_go (old new : string) (k : nat) (s : string) : string :=
  match k with
  | S k' =>
      match s with
      | String _ s' => replace_go old new k' s'
      | EmptyString => EmptyString
      end
  | O =>
      match s with
      | EmptyString => EmptyString
      | String c s' =>
          if startswith old s
          then new +:+ replace_go old new (String.length old - 1) s'
          else String c (replace_go old new 0 s')
      end
  end.

(** With an empty [old], [new] goes before every character and at the end. *)
Fixpoint interleave (new s : string) : string :=
  match s with
  | EmptyString => new
  | String c s' => new +:+ String c (interleave new s')
  end.

Definition str_replace (old new s : string) : string :=
  if is_empty old then interleave new s else replace_go old new 0 s.

(** The pass with every rule applied as a literal replacement. *)
Definition transform_literal (content : string) : string :=
  foldl (fun content rule => str_replace rule.1 rule.2 content) content REPLACEMENTS.

(** ** Patterns without special characters *)

Module Literal.

(** A pattern without special characters, and a template without
    backslash. *)
Definition plain (pattern : string) : bool :=
  Str.all (fun c => negb (Re.is_special c)) pattern.

Definition plain_template (repl : string) : bool :=
  Str.all (fun c => negb (bool_decide (c = "\"%char))) repl.

Definition literal_rule (rule : string * string) : bool :=
  plain rule.1 && negb (is_empty rule.1) && plain_template rule.2.

Definition nonempty_rule (rule : string * string) : bool := negb (is_empty rule.1).

(** The regex of the characters of [s] in a row, then [k]. *)
Fixpoint lit_then (s : string) (k : Re.regex) : Re.regex :=
  match s with
  | EmptyString => k
  | String c s' => Re.Seq (Re.Chr c) (lit_then s' k)
  end.

Definition lit (s : string) : Re.regex := lit_then s Re.Eps.

(** The items the parser has pushed after reading the plain text [s]. *)
Fixpoint push_all (s : string) (its : list (Re.regex * bool)) : list (Re.regex * bool) :=
  match s with
  | EmptyString => its
  | String c s' => push_all s' ((Re.Chr c, false) :: its)
  end.

End Literal.

(** ** What one rule does, and what a pass does, said without the code *)

Module Leftmost.

(** [old] does not occur in [s]. *)
Definition absent (old s : string) : Prop := forall u v, s <> u +:+ old +:+ v.

(** [replaced old new s s']: [s'] is [s] with the occurrences of [old]
    replaced by [new], found from the left, each search resuming right
    after the occurrence just replaced. *)
Inductive replaced (old new : string) : string -> string -> Prop :=
| replaced_none (s : string) :
    absent old s ->
    replaced old new s s
| replaced_first (u v v' : string) :
    (forall u' w, u +:+ old +:+ v = u' +:+ old +:+ w ->
                  String.length u <= String.length u') ->
    replaced old new v v' ->
    replaced old new (u +:+ old +:+ v) (u +:+ new +:+ v').

(** [pass rules s s']: every rule used once, in the order of the list,
    each on the text left by the rules before it. *)
Inductive pass : list (string * string) -> string -> string -> Prop :=
| pass_nil (s : string) : pass [] s s
| pass_cons (old new : string) (rules : list (string * string)) (s s1 s2 : string) :
    replaced old new s s1 ->
    pass rules s1 s2 ->
    pass ((old, new) :: rules) s s2.

End Leftmost.

(** ** Reading what a run printed and wrote *)

Definition processed (out : list event) : list string :=
  omap (fun ev => match ev with Print (Processando p) => Some p | _ => None end) out.

Definition updated_files (out : list event) : list string :=
  omap (fun ev => match ev with Print (Atualizado p) => Some p | _ => None end) out.

Definition unchanged_files (out : list event) : list string :=
  omap (fun ev => match ev with Print (JaAtualizado p) => Some p | _ => None end) out.

Definition failed_files (out : list event) : list string :=
  omap (fun ev => match ev with Print (Erro p _) => Some p | _ => None end) out.

Definition written (out : list event) : list (string * string) :=
  omap (fun ev => match ev with Write p t => Some (p, t) | _ => None end) out.

(** What a call does once the text read is changed by the pass: it tries
    to write. *)
Definition write_outcome (fs : gmap string file) (filepath t : string)
  : gmap string file * list event * bool :=
  match write_text fs filepath t with
  | Ok fs' =>
      (fs', [Print (Processando filepath); Write filepath t; Print (Atualizado filepath)],
       true)
  | Raise e => (fs, [Print (Processando filepath); Print (Erro filepath e)], false)
  end.

(** ** The texts and files of the scenarios *)

Definition card_input : string := "<Card>".

(** What the [<Card>] rule writes. *)
Definition card_expected : string :=
  "<Card className=" +:+ q "bg-white/5 backdrop-blur-sm border-white/10" +:+ ">".

Definition card_actual : string :=
  "<Card className="
  +:+ q "bg-white/5/5 backdrop-blur-sm border-white/10 bg-white/5/5 backdrop-blur-sm border-white/10"
  +:+ ">".

Definition card_second_pass : string :=
  "<Card className="
  +:+ q ("bg-white/5/5 backdrop-blur-sm border-white/10 "
         +:+ "bg-white/5/5/5 backdrop-blur-sm border-white/10 "
         +:+ "bg-white/5/5/5 backdrop-blur-sm border-white/10")
  +:+ ">".

Definition div_input : string :=
  "<div className=" +:+ q "bg-gray-50 border-gray-200" +:+ ">".

Definition div_expected : string :=
  "<div className=" +:+ q "bg-white/5 border-white/10" +:+ ">".

Definition div_actual : string :=
  "<div className=" +:+ q "bg-white/5/5 border-white/10" +:+ ">".

(** A page that may be read and written, one that may only be read, one
    that the pass leaves as it is, and a second page with the text of the
    first. *)
Definition open_page : gmap string file :=
  {[ "page.tsx" := File true true (Some "bg-gray-50") ]}.

Definition locked_page : gmap string file :=
  {[ "page.tsx" := File true false (Some "bg-gray-50") ]}.

Definition done_page : gmap string file :=
  {[ "done.tsx" := File true true (Some "text-white") ]}.


Definition converted_page : gmap string file :=
  {[ "page.tsx" := File true true (Some "bg-white/5/5") ]}.

(** Two pages to convert and, between them, a path that does not exist. *)
Definition three_targets : list string := [ "a.tsx"; "missing.tsx"; "b.tsx" ].

Definition two_pages : gmap string file :=
  <[ "a.tsx" := File true true (Some "text-gray-900") ]>
    {[ "b.tsx" := File true true (Some "border-gray-100") ]}.

Definition two_pages_converted : gmap string file :=
  <[ "b.tsx" := File true true (Some "border-white/10") ]>
    (<[ "a.tsx" := File true true (Some "text-white") ]> two_pages).

(** * Part I, continued: notions for the further properties *)

(** ** Texts that cannot be completed into a pattern *)

Module Overlap.

Definition tail (s : string) : string :=
  match s with
  | EmptyString => EmptyString
  | String _ t => t
  end.

(** [old] occurs somewhere in [s]. *)
Fixpoint occursb (old s : string) : bool :=
  startswith old s
  || match s with
     | EmptyString => false
     | String _ t => occursb old t
     end.

(** No non-empty end of [y] starts [x] or is started by [x]. *)
Fixpoint apart (x y : string) : bool :=
  match y with
  | EmptyString => true
  | String _ y' => negb (startswith x y) && negb (startswith y x) && apart x y'
  end.

(** Writing [new] between two texts cannot complete an occurrence of [p]:
    no end of [new] fits a start of [p], and no proper end of [p] fits a
    start of [new]. *)
Definition cannot_create (p new : string) : bool :=
  apart p new && apart new (tail p).

(** No replacement of [rules] can complete an occurrence of [p]. *)
Definition stays_absent (p : string) (rules : list (string * string)) : bool :=
  forallb (fun rule => cannot_create p rule.2) rules.

(** Some rule of [rules] removes a part of [p] that no later rule can
    write back. *)
Fixpoint clears (p : string) (rules : list (string * string)) : bool :=
  match rules with
  | [] => false
  | rule :: rest =>
      (occursb rule.1 p && cannot_create rule.1 rule.2 && stays_absent rule.1 rest)
      || clears p rest
  end.

End Overlap.

(** ** The rules that can act, and the patterns that can remain *)

(** The opening of a card that already has classes: the pattern of the
    fourth rule. *)
Definition card_open : string := "<Card className=" +:+ dq.

(** The two hover rules and the table-header rule for [bg-gray-50]. *)
Definition shadowed (rule : string * string) : bool :=
  bool_decide (rule.1 = "hover:bg-gray-50")
  || bool_decide (rule.1 = "hover:bg-gray-100")
  || bool_decide (rule.1 = "className=" +:+ q "bg-gray-50").

Definition live_rules : list (string * string) :=
  filter (fun rule => negb (shadowed rule)) REPLACEMENTS.

(** The three patterns that a text may still hold after a pass. *)
Definition lingering (pattern : string) : bool :=
  bool_decide (pattern = card_open)
  || bool_decide (pattern = "bg-white")
  || bool_decide (pattern = "text-gray-900").

(** The characters [w], [/] and [4], and how many of them a text has:
    every replacement of the table has more of them than its pattern. *)
Definition marked (c : ascii) : bool :=
  bool_decide (c = "w"%char) || bool_decide (c = "/"%char) || bool_decide (c = "4"%char).

Fixpoint weight (s : string) : nat :=
  match s with
  | EmptyString => 0
  | String c t => (if marked c then 1 else 0) + weight t
  end.

Definition heavier (rule : string * string) : bool := weight rule.1 <? weight rule.2.

(** A character that is in no pattern of the table. *)
Definition separator (c : ascii) : bool :=
  forallb (fun rule => Str.all (fun d => negb (bool_decide (d = c))) rule.1) REPLACEMENTS.

(** ** What a run leaves of the files *)

Definition perms (f : file) : bool * bool := (readable f, writable f).


(** * Part I, continued: the program on a console and a disk that can fail *)

Module Os.

(** What the outside may refuse.  [stdout_error l] is the exception that
    [print] raises on the line [l], if any (a console whose encoding has
    no check mark or cross, a closed pipe).  [write_fault filepath content]
    tells whether writing [content], once the file is open and emptied,
    raises (a full disk, a quota), and where the text stored is cut: after
    so many characters, or inside the bytes of a character. *)
Record env := Env {
  stdout_error : line -> option exn;
  write_fault : string -> string -> option (exn * option nat)
}.

(** The files, and what was printed and written so far. *)
Definition world : Type := gmap string file * list event.

(** A computation changes the world and returns or raises; what it did to
    the world before raising stays done. *)
Definition M (A : Type) : Type := world -> world * result A.

#[global] Instance M_ret : MRet M := fun A a w => (w, Ok a).

#[global] Instance M_bind : MBind M := fun A B k m w =>
  match m w with
  | (w', Ok a) => k a w'
  | (w', Raise e) => (w', Raise e)
  end.

Definition lift {A} (r : result A) : M A := fun w => (w, r).

(** [try: m except Exception as e: handler(e)] *)
Definition try_except {A} (m : M A) (handler : exn -> M A) : M A := fun w =>
  match m w with
  | (w', Ok a) => (w', Ok a)
  | (w', Raise e) => handler e w'
  end.

(** [print(l)]: the line goes out whole, or not at all. *)
Definition print (E : env) (l : line) : M unit := fun w =>
  match stdout_error E l with
  | None => ((w.1, w.2 ++ [Print l]), Ok tt)
  | Some e => (w, Raise e)
  end.

(** The first [n] characters of [s]. *)
Fixpoint take (n : nat) (s : string) : string :=
  match n, s with
  | S n', String c t => String c (take n' t)
  | _, _ => EmptyString
  end.

(** What a write that fails leaves in the file: the first [n] characters
    of the text, or, cut inside a character, bytes that decode to no
    text. *)
Definition leftover (cut : option nat) (content : string) : option string :=
  match cut with
  | Some n => Some (take n content)
  | None => None
  end.

(** [open] refuses a path with a null character before it looks for the
    file. *)
Definition has_nul (filepath : string) : bool :=
  negb (Str.all (fun c => negb (bool_decide (c = "000"%char))) filepath).

(** [open(filepath, 'r', encoding='utf-8')] followed by [f.read()] *)
Definition read_text (filepath : string) : M string := fun w =>
  (w, if has_nul filepath then Raise ValueError else read_text w.1 filepath).

(** The file is open and emptied: [f.write(content)] and the closing of
    the file complete, or raise with a part of [content] stored. *)
Definition store (E : env) (filepath content : string) (r : bool) : M unit := fun w =>
  match write_fault E filepath content with
  | None =>
      ((<[filepath := File r true (Some content)]> w.1,
        w.2 ++ [Write filepath content]), Ok tt)
  | Some (e, cut) =>
      ((<[filepath := File r true (leftover cut content)]> w.1,
        w.2 ++ [Torn filepath (leftover cut content)]), Raise e)
  end.

(** [with open(filepath, 'w', encoding='utf-8') as f: f.write(content)] *)
Definition write_text (E : env) (filepath content : string) : M unit := fun w =>
  if has_nul filepath then (w, Raise ValueError)
  else match w.1 !! filepath with
       | None => store E filepath content true w
       | Some f =>
           if writable f then store E filepath content (readable f) w
           else (w, Raise PermissionError)
       end.

(** The body of the [try] block (source lines 48-66). *)
Definition apply_dark_theme_try (E : env) (filepath : string) : M bool :=
  content ← read_text filepath;
  let original_content := content in
  content ← lift (transform content);
  if bool_decide (content ≠ original_content) then
    _ ← write_text E filepath content;
    _ ← print E (Atualizado filepath);
    mret true
  else
    _ ← print E (JaAtualizado filepath);
    mret false.

(** The [except Exception as e] branch (source lines 68-70). *)
Definition apply_dark_theme_except (E : env) (filepath : string) (e : exn) : M bool :=
  _ ← print E (Erro filepath e);
  mret false.

(** [apply_dark_theme(filepath)] (source lines 44-70): the first [print] is
    outside the [try] block, the last one inside the handler. *)
Definition apply_dark_theme (E : env) (filepath : string) : M bool :=
  _ ← print E (Processando filepath);
  try_except (apply_dark_theme_try E filepath) (apply_dark_theme_except E filepath).

(** The loop of the driver (source lines 86-88). *)
Fixpoint batch (E : env) (files : list string) (updated : nat) : M nat :=
  match files with
  | [] => mret updated
  | filepath :: rest =>
      r ← apply_dark_theme E filepath;
      batch E rest (if (r : bool) then updated + 1 else updated)
  end.

(** The driver (source lines 83-90). *)
Definition main_on (E : env) (files : list string) : M unit :=
  _ ← print E Aplicando;
  updated ← batch E files 0;
  print E (Concluido updated).

Definition main (E : env) : M unit := main_on E files_to_process.

(** A console that prints every line, and a disk that completes every
    write. *)
Definition prints_all (E : env) : Prop := forall l, stdout_error E l = None.



(** A console whose encoding has neither the check mark nor the cross, as
    with [cp1252]: the lines for an updated file, for an error and for the
    final count cannot be printed. *)
Definition narrow_console : env :=
  Env (fun l => match l with
                | Atualizado _ | Erro _ _ | Concluido _ => Some UnicodeEncodeError
                | _ => None
                end)
      (fun _ _ => None).

(** A disk that is full: a write stores nothing and raises. *)
Definition full_disk : env := Env (fun _ => None) (fun _ _ => Some (OSError, Some 0)).



(** The files that a run changed, wholly or in part. *)
Definition touched (out : list event) : list string :=
  omap (fun ev => match ev with
                  | Write p _ | Torn p _ => Some p
                  | Print _ => None
                  end) out.

(** The writes of a run that failed on the way, with what they left. *)
Definition torn (out : list event) : list (string * option string) :=
  omap (fun ev => match ev with Torn p s => Some (p, s) | _ => None end) out.

End Os.

(** Three targets: a page already converted, a path that does not exist,
    a page to convert. *)
Definition mixed_targets : list string := [ "done.tsx"; "missing.tsx"; "b.tsx" ].

Definition mixed_pages : gmap string file :=
  <[ "done.tsx" := File true true (Some "text-white") ]>
    {[ "b.tsx" := File true true (Some "border-gray-100") ]}.

(** * Part II: properties *)

(** ** The error monad *)

Lemma bind_Ok {A B} (a : A) (k : A -> result B) : Ok a ≫= k = k a.
Proof. reflexivity. Qed.

Lemma bind_Raise {A B} (e : exn) (k : A -> result B) : Raise e ≫= k = Raise e.
Proof. reflexivity. Qed.

(** ** Strings *)

Module StrFacts.

Lemma app_nil_r (s : string) : s +:+ EmptyString = s.
Proof. induction s as [|c s IH]; simpl; [done | by rewrite IH]. Qed.

Lemma app_assoc (s t u : string) : (s +:+ t) +:+ u = s +:+ (t +:+ u).
Proof. induction s as [|c s IH]; simpl; [done | by rewrite IH]. Qed.

Lemma length_app (s t : string) :
  String.length (s +:+ t) = String.length s + String.length t.
Proof. induction s as [|c s IH]; simpl; [done | by rewrite IH]. Qed.

Lemma app_inj_length (s1 s2 t1 t2 : string) :
  String.length s1 = String.length s2 ->
  s1 +:+ t1 = s2 +:+ t2 -> s1 = s2 /\ t1 = t2.
Proof.
  revert s2. induction s1 as [|c s1 IH]; intros [|d s2] Hlen Heq;
    simpl in *; try done.
  injection Heq as -> Heq. destruct (IH s2) as [-> ->]; [lia | done | done].
Qed.

Lemma length_drop (n : nat) (s : string) :
  String.length (drop n s) = String.length s - n.
Proof.
  revert s. induction n as [|n IH]; intros [|c s]; simpl; auto with lia.
Qed.

Lemma drop_app (p s : string) : drop (String.length p) (p +:+ s) = s.
Proof. induction p as [|c p IH]; simpl; [by destruct s | done]. Qed.

Lemma startswith_app (p s : string) : startswith p (p +:+ s) = true.
Proof.
  induction p as [|c p IH]; simpl; [done |].
  rewrite IH. by rewrite bool_decide_eq_true_2.
Qed.

Lemma startswith_split (p s : string) :
  startswith p s = true -> s = p +:+ drop (String.length p) s.
Proof.
  revert s. induction p as [|c p IH]; intros [|d s]; simpl; try done.
  intros [Hc Hp]%andb_prop. apply bool_decide_eq_true_1 in Hc as ->.
  f_equal. by apply IH.
Qed.

Lemma startswith_spec (p s : string) :
  startswith p s = true <-> exists v, s = p +:+ v.
Proof.
  split.
  - intros H. eexists. by apply startswith_split.
  - intros [v ->]. apply startswith_app.
Qed.

Lemma startswith_length (p s : string) :
  startswith p s = true -> String.length p <= String.length s.
Proof.
  intros [v ->]%startswith_spec. rewrite length_app. lia.
Qed.

Lemma string_neq (s t : string) : String.eqb s t = false -> s <> t.
Proof. intros H. by apply String.eqb_neq. Qed.

End StrFacts.

(** ** Plain patterns are matched literally *)

Module ReFacts.
Import Re Literal StrFacts.

Lemma is_special_false (c : ascii) :
  is_special c = false -> classify c = TLit.
Proof. unfold is_special. by destruct (classify c). Qed.

Lemma parse_go_plain (s : string) (its : list (regex * bool)) :
  plain s = true ->
  parse_go [] (Frame [] its) s = Ok (seq_of (push_all s its)).
Proof.
  revert its. induction s as [|c s IH]; intros its Hs; simpl in *; [done |].
  apply andb_prop in Hs as [Hc Hs].
  apply negb_true_iff, is_special_false in Hc. rewrite Hc.
  by apply IH.
Qed.

Lemma foldl_push_all (s : string) (its : list (regex * bool)) (k : regex) :
  foldl (fun acc it => Seq (fst it) acc) k (push_all s its)
  = foldl (fun acc it => Seq (fst it) acc) (lit_then s k) its.
Proof.
  revert its. induction s as [|c s IH]; intros its; simpl; [done |].
  by rewrite IH.
Qed.

Lemma compile_plain (pattern : string) :
  plain pattern = true -> compile pattern = Ok (lit pattern).
Proof.
  intros Hp. unfold compile, empty_frame. rewrite parse_go_plain by done.
  unfold seq_of. by rewrite foldl_push_all.
Qed.

Lemma expand_template_plain (repl : string) :
  plain_template repl = true -> expand_template repl = Ok repl.
Proof. unfold plain_template, expand_template. by intros ->. Qed.

Lemma matches_lit (p s : string) :
  matches (lit p) s
  = if startswith p s then [drop (String.length p) s] else [].
Proof.
  unfold lit. revert s. induction p as [|c p IH]; intros s; simpl.
  - by destruct s.
  - destruct s as [|d s]; simpl; [done |].
    case_bool_decide as Hcd; simpl; [| done].
    rewrite IH. by rewrite List.app_nil_r.
Qed.

Lemma first_match_lit (p s : string) :
  first_match false (lit p) s
  = if startswith p s then Some (String.length p) else None.
Proof.
  unfold first_match. rewrite matches_lit.
  destruct (startswith p s) eqn:Hp; [| done]. simpl.
  rewrite length_drop. apply startswith_length in Hp. f_equal. lia.
Qed.

Lemma sub_go_lit (c : ascii) (p t : string) (k : nat) (s : string) :
  sub_go (lit (String c p)) t k s = replace_go (String c p) t k s.
Proof.
  revert k. induction s as [|d s IH]; intros [|k].
  - unfold sub_go. by rewrite first_match_lit.
  - done.
  - change (sub_go ?r t 0 (String d s))
      with (match first_match false r (String d s) with
            | None => String d (sub_go r t 0 s)
            | Some (S n) => t +:+ sub_go r t n s
            | Some O =>
                t +:+ match first_match true r (String d s) with
                      | Some (S n) => t +:+ sub_go r t n s
                      | _ => String d (sub_go r t 0 s)
                      end
            end).
    rewrite first_match_lit.
    change (replace_go ?o t 0 (String d s))
      with (if startswith o (String d s)
            then t +:+ replace_go o t (String.length o - 1) s
            else String d (replace_go o t 0 s)).
    destruct (startswith (String c p) (String d s)).
    + change (String.length (String c p)) with (S (String.length p)).
      cbv iota beta. rewrite IH.
      by replace (S (String.length p) - 1) with (String.length p) by lia.
    + by rewrite IH.
  - simpl. apply IH.
Qed.

(** On a plain, non-empty pattern and a plain template, [re.sub] is
    [str.replace]. *)
Lemma sub_plain (old new s : string) :
  plain old = true -> is_empty old = false -> plain_template new = true ->
  Re.sub old new s = Ok (str_replace old new s).
Proof.
  intros Ho Hne Hn. unfold Re.sub, str_replace.
  rewrite compile_plain, bind_Ok, expand_template_plain, bind_Ok by done.
  rewrite Hne. destruct old as [|c p]; [done |].
  by rewrite sub_go_lit.
Qed.

Lemma for_each_literal (rules : list (string * string)) (s : string) :
  forallb literal_rule rules = true ->
  for_each (fun content rule => Re.sub rule.1 rule.2 content) rules s
  = Ok (foldl (fun content rule => str_replace rule.1 rule.2 content) s rules).
Proof.
  revert s. induction rules as [|[old new] rules IH]; intros s Hall; simpl in *.
  - done.
  - apply andb_prop in Hall as [Hr Hall].
    unfold literal_rule in Hr. simpl in Hr.
    apply andb_prop in Hr as [[Ho Hne]%andb_prop Hn].
    apply negb_true_iff in Hne.
    rewrite sub_plain, bind_Ok by done. by apply IH.
Qed.

Lemma REPLACEMENTS_literal : forallb literal_rule REPLACEMENTS = true.
Proof. vm_compute. reflexivity. Qed.

Lemma REPLACEMENTS_nonempty : forallb nonempty_rule REPLACEMENTS = true.
Proof. vm_compute. reflexivity. Qed.

Lemma transform_eq (content : string) :
  transform content = Ok (transform_literal content).
Proof. apply for_each_literal, REPLACEMENTS_literal. Qed.

End ReFacts.

(** ** What one rule does: leftmost, non-overlapping, every occurrence *)

Module LeftmostFacts.
Import Literal Leftmost StrFacts.

Lemma replace_go_drop (old new : string) (k : nat) (s : string) :
  replace_go old new k s = replace_go old new 0 (drop k s).
Proof.
  revert k. induction s as [|c s IH]; intros [|k]; try done.
  simpl. apply IH.
Qed.

Lemma replace_go_cons (old new : string) (c : ascii) (s : string) :
  replace_go old new 0 (String c s)
  = if startswith old (String c s)
    then new +:+ replace_go old new 0 (drop (String.length old - 1) s)
    else String c (replace_go old new 0 s).
Proof.
  change (replace_go old new 0 (String c s))
    with (if startswith old (String c s)
          then new +:+ replace_go old new (String.length old - 1) s
          else String c (replace_go old new 0 s)).
  by rewrite (replace_go_drop old new (String.length old - 1)).
Qed.

Section OneRule.
Variables old new : string.
Hypothesis old_nonempty : is_empty old = false.

Lemma old_length : 1 <= String.length old.
Proof using old_nonempty. destruct old; simpl in *; [done | lia]. Qed.

(** Either [old] does not occur and the text is kept, or the text splits
    at the leftmost occurrence and the scan resumes after it. *)
Lemma replace_go_step (s : string) :
  (absent old s /\ replace_go old new 0 s = s)
  \/ exists u v,
      s = u +:+ old +:+ v
      /\ (forall u' w, s = u' +:+ old +:+ w ->
                       String.length u <= String.length u')
      /\ replace_go old new 0 s = u +:+ new +:+ replace_go old new 0 v.
Proof using old_nonempty.
  pose proof old_length as Hlen.
  induction s as [|c s IH].
  - left. split; [| done]. intros u v Heq.
    apply (f_equal String.length) in Heq.
    rewrite !length_app in Heq. simpl in Heq. lia.
  - rewrite replace_go_cons.
    destruct (startswith old (String c s)) eqn:Hsw.
    + right. exists EmptyString, (drop (String.length old) (String c s)).
      split; [by apply startswith_split |].
      split; [simpl; lia |].
      simpl. do 2 f_equal.
      destruct old as [|a p]; simpl in *; [done |]. by rewrite Nat.sub_0_r.
    + destruct IH as [[Hno Heq] | (u & v & Hs & Hleft & Heq)].
      * left. split; [| by rewrite Heq].
        intros [|c' u] v Hocc; simpl in Hocc.
        -- rewrite Hocc, startswith_app in Hsw. done.
        -- injection Hocc as _ Hocc. by apply (Hno u v).
      * right. exists (String c u), v.
        split; [simpl; by rewrite <- Hs |].
        split; [| simpl; by rewrite Heq].
        intros [|c' u'] w Hocc; simpl in Hocc.
        -- rewrite Hocc, startswith_app in Hsw. done.
        -- injection Hocc as _ Hocc. apply Hleft in Hocc. simpl. lia.
Qed.

Lemma replaced_replace_go (s : string) :
  replaced old new s (replace_go old new 0 s).
Proof using old_nonempty.
  pose proof old_length as Hlen.
  remember (String.length s) as n eqn:Hn.
  revert s Hn. induction (lt_wf n) as [n _ IH]; intros s ->.
  destruct (replace_go_step s) as [[Hno Heq] | (u & v & Hs & Hleft & Heq)].
  - rewrite Heq. by apply replaced_none.
  - rewrite Heq. rewrite Hs at 1. apply replaced_first.
    + intros u' w Hocc. apply (Hleft u' w). by rewrite <- Hocc.
    + apply (IH (String.length v)); [| done].
      rewrite Hs, !length_app. lia.
Qed.

Lemma replaced_str_replace (s : string) :
  replaced old new s (str_replace old new s).
Proof using old_nonempty.
  unfold str_replace. rewrite old_nonempty. apply replaced_replace_go.
Qed.

Lemma str_replace_absent (s : string) :
  absent old s -> str_replace old new s = s.
Proof using old_nonempty.
  intros Habs. unfold str_replace. rewrite old_nonempty.
  destruct (replace_go_step s) as [[_ Heq] | (u & v & Hs & _)].
  - done.
  - by destruct (Habs u v).
Qed.

End OneRule.

Lemma replaced_functional (old new s t1 t2 : string) :
  replaced old new s t1 -> replaced old new s t2 -> t1 = t2.
Proof.
  intros H1. revert t2.
  induction H1 as [s Hno | u v v' Hleft Hv IH]; intros t2 H2.
  - inversion H2 as [s' Hno' | u2 v2 v2' Hleft2 Hv2 Heq]; subst; [done |].
    by destruct (Hno u2 v2).
  - inversion H2 as [s' Hno' | u2 v2 v2' Hleft2 Hv2 Heq]; subst.
    + by destruct (Hno' u v).
    + assert (String.length u2 = String.length u) as Hlen.
      { apply Nat.le_antisymm; [by apply (Hleft2 u v) | by apply (Hleft u2 v2)]. }
      destruct (app_inj_length _ _ _ _ Hlen Heq) as [-> Hrest].
      destruct (app_inj_length old old v2 v eq_refl Hrest) as [_ ->].
      by rewrite (IH _ Hv2).
Qed.

Lemma pass_foldl (rules : list (string * string)) (s : string) :
  forallb nonempty_rule rules = true ->
  pass rules s (foldl (fun content rule => str_replace rule.1 rule.2 content) s rules).
Proof.
  revert s. induction rules as [|[old new] rules IH]; intros s Hall; simpl in *.
  - constructor.
  - apply andb_prop in Hall as [Hne Hall]. apply negb_true_iff in Hne.
    econstructor; [by apply replaced_str_replace | by apply IH].
Qed.

Lemma pass_functional (rules : list (string * string)) (s t1 t2 : string) :
  pass rules s t1 -> pass rules s t2 -> t1 = t2.
Proof.
  intros H1. revert t2.
  induction H1 as [s | old new rules s s1 s2 Hr Hp IH]; intros t2 H2.
  - by inversion H2.
  - inversion H2 as [| old' new' rules' s' s1' s2' Hr' Hp']; subst.
    rewrite (replaced_functional old new s s1' s1 Hr' Hr) in Hp'.
    by apply IH.
Qed.

Lemma foldl_absent (rules : list (string * string)) (s : string) :
  forallb nonempty_rule rules = true ->
  Forall (fun rule => absent rule.1 s) rules ->
  foldl (fun content rule => str_replace rule.1 rule.2 content) s rules = s.
Proof.
  intros Hne Habs. induction Habs as [|[old new] rules Hr Hrs IH]; simpl in *.
  - done.
  - apply andb_prop in Hne as [Ho Hne]. apply negb_true_iff in Ho.
    rewrite str_replace_absent by done. by apply IH.
Qed.

Lemma transform_literal_absent (content : string) :
  Forall (fun rule => absent rule.1 content) REPLACEMENTS ->
  transform_literal content = content.
Proof. apply foldl_absent, ReFacts.REPLACEMENTS_nonempty. Qed.

End LeftmostFacts.

(** ** The ways through [apply_dark_theme] *)

Module Paths.
Import ReFacts.

Lemma read_text_Ok (fs : gmap string file) (filepath content : string) :
  read_text fs filepath = Ok content <->
  exists f, fs !! filepath = Some f /\ readable f = true /\ text f = Some content.
Proof.
  unfold read_text. split.
  - destruct (fs !! filepath) as [[[] w [t|]]|]; simpl; try done.
    intros [= ->]. by eexists.
  - intros (f & -> & Hr & Ht). by rewrite Hr, Ht.
Qed.

(** The three ways in which reading fails. *)
Lemma read_text_Raise (fs : gmap string file) (filepath : string) (e : exn) :
  read_text fs filepath = Raise e <->
  (fs !! filepath = None /\ e = FileNotFoundError)
  \/ (exists f, fs !! filepath = Some f /\ readable f = false /\ e = PermissionError)
  \/ (exists f, fs !! filepath = Some f /\ readable f = true /\ text f = None
                /\ e = UnicodeDecodeError).
Proof.
  unfold read_text. split.
  - destruct (fs !! filepath) as [[[] w [t|]]|]; simpl; try done; intros [= <-].
    + right; right. by eexists.
    + right; left. by eexists.
    + right; left. by eexists.
    + by left.
  - intros [[-> ->] | [(f & -> & Hr & ->) | (f & -> & Hr & Ht & ->)]].
    + done.
    + by rewrite Hr.
    + by rewrite Hr, Ht.
Qed.

Lemma write_text_existing (fs : gmap string file) (filepath content : string) (f : file) :
  fs !! filepath = Some f ->
  write_text fs filepath content
  = if writable f
    then Ok (<[filepath := File (readable f) (writable f) (Some content)]> fs)
    else Raise PermissionError.
Proof. intros Hf. unfold write_text. by rewrite Hf. Qed.

Lemma read_fails (fs : gmap string file) (filepath : string) (e : exn) :
  read_text fs filepath = Raise e ->
  apply_dark_theme fs filepath
  = (fs, [Print (Processando filepath); Print (Erro filepath e)], false).
Proof.
  intros Hr. unfold apply_dark_theme, apply_dark_theme_try.
  by rewrite Hr, bind_Raise.
Qed.

Lemma unchanged (fs : gmap string file) (filepath content : string) :
  read_text fs filepath = Ok content ->
  transform_literal content = content ->
  apply_dark_theme fs filepath
  = (fs, [Print (Processando filepath); Print (JaAtualizado filepath)], false).
Proof.
  intros Hr Ht. unfold apply_dark_theme, apply_dark_theme_try.
  rewrite Hr, bind_Ok, transform_eq, bind_Ok.
  rewrite bool_decide_eq_false_2; [done | by intros []].
Qed.

Lemma write_attempted (fs : gmap string file) (filepath content : string) :
  read_text fs filepath = Ok content ->
  transform_literal content <> content ->
  apply_dark_theme fs filepath
  = write_outcome fs filepath (transform_literal content).
Proof.
  intros Hr Ht. unfold apply_dark_theme, apply_dark_theme_try, write_outcome.
  rewrite Hr, bind_Ok, transform_eq, bind_Ok.
  rewrite bool_decide_eq_true_2 by done.
  by destruct (write_text fs filepath (transform_literal content)).
Qed.

(** The three shapes of what one call prints and returns. *)
Lemma apply_dark_theme_shape (fs : gmap string file) (filepath : string) :
  (exists fs' t,
      apply_dark_theme fs filepath
      = (fs', [Print (Processando filepath); Write filepath t;
               Print (Atualizado filepath)], true))
  \/ apply_dark_theme fs filepath
     = (fs, [Print (Processando filepath); Print (JaAtualizado filepath)], false)
  \/ (exists e,
         apply_dark_theme fs filepath
         = (fs, [Print (Processando filepath); Print (Erro filepath e)], false)).
Proof.
  destruct (read_text fs filepath) as [content|e] eqn:Hr.
  - destruct (decide (transform_literal content = content)) as [Ht|Ht].
    + right; left. by apply (unchanged _ _ content).
    + rewrite (write_attempted _ _ _ Hr Ht). unfold write_outcome.
      destruct (write_text fs filepath (transform_literal content)) as [fs'|e].
      * left. by eexists _, _.
      * right; right. by eexists.
  - right; right. exists e. by apply read_fails.
Qed.

End Paths.

(** ** The loop of the batch driver *)

Module Batch.

Lemma batch_cons (filepath : string) (rest : list string)
    (fs : gmap string file) (updated : nat) :
  batch (filepath :: rest) fs updated
  = let '(fs1, out1, ret) := apply_dark_theme fs filepath in
    let '(fs2, out2, n) := batch rest fs1 (if ret then updated + 1 else updated) in
    (fs2, out1 ++ out2, n).
Proof. reflexivity. Qed.

Lemma batch_app (before after : list string) (fs : gmap string file) (updated : nat) :
  batch (before ++ after) fs updated
  = let '(fs1, out1, n1) := batch before fs updated in
    let '(fs2, out2, n2) := batch after fs1 n1 in
    (fs2, out1 ++ out2, n2).
Proof.
  revert fs updated. induction before as [|p before IH]; intros fs updated.
  - simpl. by destruct (batch after fs updated) as [[fs2 out2] n2].
  - rewrite <- app_comm_cons, !batch_cons.
    destruct (apply_dark_theme fs p) as [[fs1 out1] ret].
    rewrite IH.
    destruct (batch before fs1 _) as [[fs1' out1'] n1].
    destruct (batch after fs1' n1) as [[fs2 out2] n2].
    by rewrite app_assoc.
Qed.

Lemma batch_counts (files : list string) (fs : gmap string file) (updated : nat) :
  processed (batch files fs updated).1.2 = files
  /\ (batch files fs updated).2
     = updated + length (updated_files (batch files fs updated).1.2)
  /\ length files
     = length (updated_files (batch files fs updated).1.2)
       + length (unchanged_files (batch files fs updated).1.2)
       + length (failed_files (batch files fs updated).1.2).
Proof.
  revert fs updated. induction files as [|p files IH]; intros fs updated.
  - simpl. repeat split; lia.
  - rewrite batch_cons.
    destruct (Paths.apply_dark_theme_shape fs p)
      as [(fs' & t & ->) | [-> | (e & ->)]];
      match goal with
      | |- context [batch files ?f ?n] =>
          specialize (IH f n); destruct (batch files f n) as [[fs2 out2] n2]
      end;
      simpl in *; destruct IH as (-> & -> & ->); repeat split; lia.
Qed.

(** Two pages and a path that does not exist between them: both pages are
    converted, the missing one is reported, the count is two. *)
Example batch_three_targets :
  main_on three_targets two_pages
  = (two_pages_converted,
     [ Print Aplicando;
       Print (Processando "a.tsx"); Write "a.tsx" "text-white";
       Print (Atualizado "a.tsx");
       Print (Processando "missing.tsx");
       Print (Erro "missing.tsx" FileNotFoundError);
       Print (Processando "b.tsx"); Write "b.tsx" "border-white/10";
       Print (Atualizado "b.tsx");
       Print (Concluido 2) ]).
Proof. vm_compute. reflexivity. Qed.

End Batch.

(** * The claims *)

(** ** The pass *)

(** C1.  The [<Card>] rule alone turns [<Card>] into the text the claim
    names, but the pass goes on: the rule for an opening [<Card className=]
    matches what was just written and injects the classes again, and the
    rule for [bg-white] then matches inside both [bg-white/5].  One pass does
    not give the claimed text, and a second pass changes the text again. *)
Theorem card_scenario_cascades :
  Re.sub "<Card>" card_expected card_input = Ok card_expected
  /\ transform card_input = Ok card_actual
  /\ card_actual <> card_expected
  /\ transform card_actual = Ok card_second_pass
  /\ card_second_pass <> card_actual.
Proof.
  repeat split; try (vm_compute; reflexivity);
    apply StrFacts.string_neq; vm_compute; reflexivity.
Qed.

(** C2.  The border rule and the background rule, in either order, turn the
    [div] into the claimed text; the later rule for [bg-white] then matches
    inside the [bg-white/5] just written, so the pass ends on
    [bg-white/5/5]. *)
Theorem div_scenario_cascades :
  str_replace "bg-gray-50" "bg-white/5"
    (str_replace "border-gray-200" "border-white/10" div_input) = div_expected
  /\ str_replace "border-gray-200" "border-white/10"
       (str_replace "bg-gray-50" "bg-white/5" div_input) = div_expected
  /\ str_replace "bg-white" "bg-white/5" div_expected = div_actual
  /\ transform div_input = Ok div_actual
  /\ div_actual <> div_expected.
Proof.
  repeat split; try (vm_compute; reflexivity).
  apply StrFacts.string_neq; vm_compute; reflexivity.
Qed.

(** C3.  The pass is not idempotent: on [bg-gray-50] one pass gives
    [bg-white/5/5] and a second pass gives [bg-white/5/5/5]; a writable file
    that holds the output of one pass is written again and reported as
    updated. *)
Theorem second_pass_changes_converted_text :
  ~ (forall s t u, transform s = Ok t -> transform t = Ok u -> u = t)
  /\ transform "bg-gray-50" = Ok "bg-white/5/5"
  /\ transform "bg-white/5/5" = Ok "bg-white/5/5/5"
  /\ apply_dark_theme converted_page "page.tsx"
     = (<[ "page.tsx" := File true true (Some "bg-white/5/5/5") ]> converted_page,
        [ Print (Processando "page.tsx");
          Write "page.tsx" "bg-white/5/5/5";
          Print (Atualizado "page.tsx") ],
        true).
Proof.
  assert (transform "bg-gray-50" = Ok "bg-white/5/5") as H1
    by (vm_compute; reflexivity).
  assert (transform "bg-white/5/5" = Ok "bg-white/5/5/5") as H2
    by (vm_compute; reflexivity).
  split.
  { intros Hidem. specialize (Hidem _ _ _ H1 H2).
    revert Hidem. apply StrFacts.string_neq. vm_compute. reflexivity. }
  split; [done |].
  split; [done |].
  rewrite (Paths.write_attempted _ _ "bg-white/5/5").
  - unfold write_outcome.
    rewrite (Paths.write_text_existing _ _ _ (File true true (Some "bg-white/5/5")))
      by apply lookup_singleton_eq.
    simpl. repeat f_equal; vm_compute; reflexivity.
  - apply Paths.read_text_Ok. eexists. split; [apply lookup_singleton_eq | done].
  - apply not_eq_sym, StrFacts.string_neq. vm_compute. reflexivity.
Qed.

(** C4.  One pass is exactly this: each rule of [REPLACEMENTS] is used once,
    in the order of the list, it replaces every occurrence of its pattern
    found from the left without overlap, and it works on the text left by the
    rules before it.  The pass always returns, and its result is the only
    text so related to the input.  No rule is applied again on its own
    output: [bg-white] becomes [bg-white/5], in which the pattern still
    occurs. *)
Theorem transform_is_one_ordered_pass (content : string) :
  (exists t,
      transform content = Ok t
      /\ Leftmost.pass REPLACEMENTS content t
      /\ forall t', Leftmost.pass REPLACEMENTS content t' -> t' = t)
  /\ transform "bg-white" = Ok "bg-white/5".
Proof.
  split; [| vm_compute; reflexivity].
  exists (transform_literal content).
  assert (Leftmost.pass REPLACEMENTS content (transform_literal content)) as Hp.
  { apply LeftmostFacts.pass_foldl, ReFacts.REPLACEMENTS_nonempty. }
  split; [apply ReFacts.transform_eq |].
  split; [done |].
  intros t' Ht'. by apply (LeftmostFacts.pass_functional REPLACEMENTS content).
Qed.

(** C7.  Every pattern of [REPLACEMENTS] is free of special characters and
    every replacement free of backslashes, so that for each rule [re.sub]
    gives what [str.replace] gives, on every text, and so does the whole
    pass. *)
Theorem patterns_behave_as_literals :
  (forall rule content,
      rule ∈ REPLACEMENTS ->
      Re.sub rule.1 rule.2 content = Ok (str_replace rule.1 rule.2 content))
  /\ (forall content, transform content = Ok (transform_literal content)).
Proof.
  split.
  - intros rule content Hin.
    pose proof ReFacts.REPLACEMENTS_literal as Hall.
    rewrite forallb_forall in Hall.
    apply list_elem_of_In, Hall in Hin.
    unfold Literal.literal_rule in Hin.
    apply andb_prop in Hin as [[Hp Hne]%andb_prop Ht].
    apply negb_true_iff in Hne.
    by apply ReFacts.sub_plain.
  - intros content. apply ReFacts.for_each_literal, ReFacts.REPLACEMENTS_literal.
Qed.

(** ** One file *)

(** C5, as stated, fails on a file that cannot be opened for writing: its
    text is changed by the pass, yet nothing is written, the files stay as
    they were and the call returns [False]. *)
Lemma changed_text_of_locked_file_not_written :
  read_text locked_page "page.tsx" = Ok "bg-gray-50"
  /\ transform "bg-gray-50" = Ok "bg-white/5/5"
  /\ "bg-white/5/5" <> "bg-gray-50"
  /\ apply_dark_theme locked_page "page.tsx"
     = (locked_page,
        [ Print (Processando "page.tsx"); Print (Erro "page.tsx" PermissionError) ],
        false).
Proof.
  assert (read_text locked_page "page.tsx" = Ok "bg-gray-50") as Hr.
  { apply Paths.read_text_Ok. eexists. split; [apply lookup_singleton_eq | done]. }
  split; [done |].
  split; [vm_compute; reflexivity |].
  split; [apply StrFacts.string_neq; vm_compute; reflexivity |].
  rewrite (Paths.write_attempted _ _ _ Hr).
  - unfold write_outcome.
    by rewrite (Paths.write_text_existing _ _ _ (File true false (Some "bg-gray-50")))
      by apply lookup_singleton_eq.
  - apply StrFacts.string_neq. vm_compute. reflexivity.
Qed.





(** * Further properties *)

(** ** Occurrences, and what a replacement can and cannot complete *)

Module OverlapFacts.
Import Literal Leftmost Overlap StrFacts.

(** Two ways of cutting the same text. *)
Lemma app_eq_app (x y a z : string) :
  x +:+ y = a +:+ z ->
  (exists m, a = x +:+ m /\ y = m +:+ z)
  \/ (exists c m, x = a +:+ String c m /\ z = String c m +:+ y).
Proof.
  revert a. induction x as [|d x IH]; intros a Heq.
  - left. by exists a.
  - destruct a as [|e a].
    + right. exists d, x. simpl in Heq. by subst z.
    + simpl in Heq. injection Heq as -> Heq.
      destruct (IH a Heq) as [(m & -> & ->) | (c & m & -> & ->)].
      * left. by exists m.
      * right. by exists c, m.
Qed.

Lemma prefix_compat (n w p b : string) :
  n +:+ w = p +:+ b -> startswith n p = true \/ startswith p n = true.
Proof.
  intros Heq. destruct (app_eq_app _ _ _ _ Heq) as [(m & -> & _) | (c & m & -> & _)].
  - left. apply startswith_app.
  - right. apply startswith_app.
Qed.

Lemma apart_end (x y a n : string) :
  apart x y = true -> y = a +:+ n -> n <> EmptyString ->
  startswith x n = false /\ startswith n x = false.
Proof.
  revert a. induction y as [|c y IH]; intros a Hap Hy Hn.
  - destruct a, n; simpl in Hy; done.
  - simpl in Hap. apply andb_prop in Hap as [[H1 H2]%andb_prop Hap].
    apply negb_true_iff in H1, H2.
    destruct a as [|e a]; simpl in Hy.
    + by subst n.
    + injection Hy as _ Hy. by apply (IH a).
Qed.

Lemma absent_parts (p u old v : string) :
  absent p (u +:+ old +:+ v) -> absent p u /\ absent p v.
Proof.
  intros Habs. split; intros a b ->.
  - apply (Habs a (b +:+ old +:+ v)). by rewrite !app_assoc.
  - apply (Habs (u +:+ old +:+ a) b). by rewrite !app_assoc.
Qed.

(** Between two texts without [p], a text that cannot complete [p]. *)
Lemma absent_glue (p new u w : string) :
  cannot_create p new = true ->
  absent p u -> absent p w -> absent p (u +:+ new +:+ w).
Proof.
  intros [Hpn Hnp]%andb_prop Hu Hw a b Heq.
  destruct (app_eq_app _ _ _ _ Heq) as [(m & -> & Heq1) | (c & m & Hum & Heq1)].
  - destruct (app_eq_app _ _ _ _ Heq1) as [(m' & -> & ->) | (c & m' & Hnew & Heq2)].
    + by apply (Hw m' b).
    + destruct (apart_end p new m (String c m') Hpn Hnew) as [H1 H2]; [done |].
      destruct (prefix_compat _ _ _ _ Heq2); congruence.
  - destruct (app_eq_app _ _ _ _ Heq1) as [(m' & Hm & _) | (c' & m' & Hp & Heq2)].
    + apply (Hu a m'). by rewrite Hum, Hm.
    + assert (Overlap.tail p = m +:+ String c' m') as Htail by (by rewrite Hp).
      destruct (apart_end new (Overlap.tail p) m (String c' m') Hnp Htail) as [H1 H2];
        [done |].
      destruct (prefix_compat _ _ _ _ Heq2); congruence.
Qed.

Lemma occursb_spec (old s : string) :
  occursb old s = true <-> exists u v, s = u +:+ old +:+ v.
Proof.
  split.
  - induction s as [|c s IH]; simpl.
    + rewrite orb_false_r. intros [v ->]%startswith_spec. by exists EmptyString, v.
    + intros [[v Hv]%startswith_spec | Hs]%orb_prop.
      * exists EmptyString, v. done.
      * destruct (IH Hs) as (u & v & ->). by exists (String c u), v.
  - intros (u & v & ->). induction u as [|c u IH].
    + change (occursb old (old +:+ v) = true).
      pose proof (startswith_app old v) as Hsw.
      destruct (old +:+ v); simpl; by rewrite Hsw.
    + change (occursb old (String c (u +:+ old +:+ v)) = true).
      simpl. rewrite IH. apply orb_true_r.
Qed.

Lemma occursb_absent (old s : string) : occursb old s = false <-> absent old s.
Proof.
  split.
  - intros Hocc u v ->. rewrite (proj2 (occursb_spec old _)) in Hocc; [done | by eauto].
  - intros Habs. destruct (occursb old s) eqn:Hocc; [| done].
    apply occursb_spec in Hocc as (u & v & ->). by destruct (Habs u v).
Qed.

(** A text without a part of [p] is without [p]. *)
Lemma absent_super (old p s : string) :
  occursb old p = true -> absent old s -> absent p s.
Proof.
  intros (a & b & ->)%occursb_spec Habs u v ->.
  apply (Habs (u +:+ a) (b +:+ v)). by rewrite !app_assoc.
Qed.

Section OneRule.
Variables old new : string.
Hypothesis old_nonempty : is_empty old = false.

Lemma leftmost_absent (u v : string) :
  (forall u' w, u +:+ old +:+ v = u' +:+ old +:+ w ->
                String.length u <= String.length u') ->
  absent old u.
Proof using old_nonempty.
  intros Hleft a b ->.
  specialize (Hleft a (b +:+ old +:+ v)).
  rewrite !app_assoc in Hleft. specialize (Hleft eq_refl).
  rewrite !length_app in Hleft.
  pose proof (LeftmostFacts.old_length old old_nonempty). lia.
Qed.

(** After the rule, its pattern is gone, when the replacement cannot
    complete it. *)
Lemma replaced_removes (s t : string) :
  cannot_create old new = true -> replaced old new s t -> absent old t.
Proof using old_nonempty.
  intros Hcc Hr. induction Hr as [s Hno | u v v' Hleft Hv IH]; [done |].
  apply absent_glue; [done | by apply (leftmost_absent u v) | done].
Qed.

(** The rule does not bring in a pattern that its replacement cannot
    complete. *)
Lemma replaced_keeps_absent (p s t : string) :
  cannot_create p new = true -> replaced old new s t -> absent p s -> absent p t.
Proof.
  intros Hcc Hr. induction Hr as [s Hno | u v v' Hleft Hv IH]; [done |].
  intros [Hu Hv']%absent_parts. apply absent_glue; [done | done | by apply IH].
Qed.

Lemma weight_app (a b : string) : weight (a +:+ b) = weight a + weight b.
Proof. induction a as [|c a IH]; simpl; [done | rewrite IH; lia]. Qed.

(** A rule whose replacement is heavier than its pattern leaves the text
    as it is, or makes it heavier. *)
Lemma replaced_weight (s t : string) :
  weight old < weight new -> replaced old new s t ->
  (absent old s /\ t = s) \/ weight s < weight t.
Proof.
  intros Hw Hr. induction Hr as [s Hno | u v v' Hleft Hv IH]; [by left |].
  right. rewrite !weight_app. destruct IH as [[_ ->] | IH]; lia.
Qed.

End OneRule.

Lemma str_replace_removes (old new s : string) :
  is_empty old = false -> cannot_create old new = true ->
  absent old (str_replace old new s).
Proof.
  intros Hne Hcc. apply (replaced_removes old new Hne s); [done |].
  by apply LeftmostFacts.replaced_str_replace.
Qed.

Lemma str_replace_keeps_absent (p old new s : string) :
  is_empty old = false -> cannot_create p new = true ->
  absent p s -> absent p (str_replace old new s).
Proof.
  intros Hne Hcc. apply (replaced_keeps_absent old new p s); [done |].
  by apply LeftmostFacts.replaced_str_replace.
Qed.

Lemma str_replace_weight (old new s : string) :
  is_empty old = false -> weight old < weight new ->
  (absent old s /\ str_replace old new s = s) \/ weight s < weight (str_replace old new s).
Proof.
  intros Hne Hw. apply (replaced_weight old new s); [done |].
  by apply LeftmostFacts.replaced_str_replace.
Qed.

Lemma foldl_keeps_absent (p : string) (rules : list (string * string)) (s : string) :
  forallb nonempty_rule rules = true -> stays_absent p rules = true ->
  absent p s ->
  absent p (foldl (fun content rule => str_replace rule.1 rule.2 content) s rules).
Proof.
  revert s. induction rules as [|[old new] rules IH]; intros s Hne Hst Habs; simpl in *.
  - done.
  - apply andb_prop in Hne as [Ho Hne]. apply negb_true_iff in Ho.
    apply andb_prop in Hst as [Hcc Hst].
    apply IH; [done | done |]. by apply str_replace_keeps_absent.
Qed.

Lemma clears_sound (p : string) (rules : list (string * string)) (s : string) :
  forallb nonempty_rule rules = true -> clears p rules = true ->
  absent p (foldl (fun content rule => str_replace rule.1 rule.2 content) s rules).
Proof.
  revert s. induction rules as [|[old new] rules IH]; intros s Hne Hcl; simpl in *.
  - done.
  - apply andb_prop in Hne as [Ho Hne]. apply negb_true_iff in Ho.
    apply orb_prop in Hcl as [[[Hocc Hcc]%andb_prop Hst]%andb_prop | Hcl].
    + apply (absent_super old); [done |].
      apply foldl_keeps_absent; [done | done |].
      by apply str_replace_removes.
    + by apply IH.
Qed.

(** The pass never makes a text lighter, and keeps its weight only when
    no rule found its pattern. *)
Lemma foldl_weight (rules : list (string * string)) (s : string) :
  forallb nonempty_rule rules = true -> forallb heavier rules = true ->
  weight s <= weight (foldl (fun content rule => str_replace rule.1 rule.2 content) s rules)
  /\ (weight (foldl (fun content rule => str_replace rule.1 rule.2 content) s rules)
      = weight s ->
      Forall (fun rule => absent rule.1 s) rules).
Proof.
  revert s. induction rules as [|[old new] rules IH]; intros s Hne Hh; simpl in *.
  - split; [lia | by constructor].
  - apply andb_prop in Hne as [Ho Hne]. apply negb_true_iff in Ho.
    apply andb_prop in Hh as [Hw Hh]. apply Nat.ltb_lt in Hw.
    destruct (IH (str_replace old new s) Hne Hh) as [Hle Heq].
    destruct (str_replace_weight old new s Ho Hw) as [[Habs Hs] | Hlt].
    + rewrite Hs in *. split; [done |].
      intros Hfin. constructor; [done | by apply Heq].
    + split; [lia | intros Hfin; lia].
Qed.

End OverlapFacts.

(** ** A character of no pattern cuts the text in two *)

Module Lines.
Import Literal StrFacts.

Lemma drop_app_le (n : nat) (a t : string) :
  n <= String.length a -> drop n (a +:+ t) = drop n a +:+ t.
Proof.
  revert a. induction n as [|n IH]; intros a Hn.
  - done.
  - destruct a as [|d a]; simpl in *; [lia |]. apply IH. lia.
Qed.

Section Separator.
Variables (old new : string) (c : ascii).
Hypothesis old_nonempty : is_empty old = false.
Hypothesis c_not_in_old : Str.all (fun d => negb (bool_decide (d = c))) old = true.

Lemma startswith_sep (p a b : string) :
  Str.all (fun d => negb (bool_decide (d = c))) p = true ->
  startswith p (a +:+ String c b) = startswith p a.
Proof.
  revert a. induction p as [|x p IH]; intros a Hp; [done |].
  simpl in Hp. apply andb_prop in Hp as [Hx Hp].
  destruct a as [|d a]; simpl.
  - apply negb_true_iff in Hx. by rewrite Hx.
  - by rewrite IH.
Qed.

Lemma replace_go_sep (a b : string) :
  replace_go old new 0 (a +:+ String c b)
  = replace_go old new 0 a +:+ String c (replace_go old new 0 b).
Proof using old_nonempty c_not_in_old.
  remember (String.length a) as n eqn:Hn.
  revert a Hn. induction (lt_wf n) as [n _ IH]; intros a ->.
  destruct a as [|d a].
  - change (replace_go old new 0 (String c b)
            = String c (replace_go old new 0 b)).
    rewrite LeftmostFacts.replace_go_cons.
    assert (startswith old (String c b) = false) as ->; [| done].
    pose proof (startswith_sep old EmptyString b c_not_in_old) as Hsw.
    change (EmptyString +:+ String c b) with (String c b) in Hsw.
    rewrite Hsw. by destruct old.
  - change (replace_go old new 0 (String d (a +:+ String c b))
            = replace_go old new 0 (String d a) +:+ String c (replace_go old new 0 b)).
    rewrite !LeftmostFacts.replace_go_cons.
    change (String d (a +:+ String c b)) with (String d a +:+ String c b).
    rewrite (startswith_sep old (String d a) b c_not_in_old).
    destruct (startswith old (String d a)) eqn:Hsw.
    + apply startswith_length in Hsw. simpl in Hsw.
      rewrite drop_app_le by lia.
      rewrite (IH (String.length (drop (String.length old - 1) a))).
      * by rewrite app_assoc.
      * rewrite length_drop. simpl. lia.
      * done.
    + rewrite (IH (String.length a)); [done | simpl; lia | done].
Qed.

Lemma str_replace_sep (a b : string) :
  str_replace old new (a +:+ String c b)
  = str_replace old new a +:+ String c (str_replace old new b).
Proof using old_nonempty c_not_in_old.
  unfold str_replace. rewrite old_nonempty. apply replace_go_sep.
Qed.

End Separator.

Lemma foldl_sep (rules : list (string * string)) (c : ascii) (a b : string) :
  forallb nonempty_rule rules = true ->
  forallb (fun rule => Str.all (fun d => negb (bool_decide (d = c))) rule.1) rules = true ->
  foldl (fun content rule => str_replace rule.1 rule.2 content) (a +:+ String c b) rules
  = foldl (fun content rule => str_replace rule.1 rule.2 content) a rules
    +:+ String c (foldl (fun content rule => str_replace rule.1 rule.2 content) b rules).
Proof.
  revert a b. induction rules as [|[old new] rules IH]; intros a b Hne Hsep; simpl in *.
  - done.
  - apply andb_prop in Hne as [Ho Hne]. apply negb_true_iff in Ho.
    apply andb_prop in Hsep as [Hc Hsep].
    rewrite str_replace_sep by done. by apply IH.
Qed.

End Lines.

(** ** What a call and a run leave of the files *)

Module Files.

(** A call leaves the files as they were, or puts a new text in the file
    it was given, which was there, readable and writable. *)
Lemma apply_dark_theme_files (fs : gmap string file) (filepath : string) :
  ((apply_dark_theme fs filepath).1.1 = fs
   /\ (apply_dark_theme fs filepath).2 = false
   /\ written (apply_dark_theme fs filepath).1.2 = []
   /\ updated_files (apply_dark_theme fs filepath).1.2 = [])
  \/ exists f content,
      fs !! filepath = Some f /\ readable f = true /\ writable f = true
      /\ text f = Some content
      /\ transform_literal content <> content
      /\ apply_dark_theme fs filepath
         = (<[filepath := File true true (Some (transform_literal content))]> fs,
            [Print (Processando filepath);
             Write filepath (transform_literal content);
             Print (Atualizado filepath)], true).
Proof.
  destruct (read_text fs filepath) as [content|e] eqn:Hr.
  - destruct (decide (transform_literal content = content)) as [Ht|Ht].
    + left. by rewrite (Paths.unchanged _ _ _ Hr Ht).
    + rewrite (Paths.write_attempted _ _ _ Hr Ht). unfold write_outcome.
      apply Paths.read_text_Ok in Hr as (f & Hf & Hrd & Htx).
      rewrite (Paths.write_text_existing _ _ _ f Hf).
      destruct (writable f) eqn:Hw.
      * right. exists f, content. by rewrite Hrd.
      * by left.
  - left. by rewrite (Paths.read_fails _ _ _ Hr).
Qed.

Lemma insert_perms (fs : gmap string file) (p q : string) (f g : file) :
  fs !! p = Some f -> perms g = perms f ->
  perms <$> (<[p := g]> fs !! q) = perms <$> (fs !! q).
Proof.
  intros Hf Hg. destruct (decide (p = q)) as [<-|Hne].
  - rewrite lookup_insert_eq, Hf. simpl. by rewrite Hg.
  - by rewrite lookup_insert_ne.
Qed.

Lemma apply_dark_theme_frame (fs : gmap string file) (filepath : string) :
  dom (apply_dark_theme fs filepath).1.1 = dom fs
  /\ (forall q, perms <$> ((apply_dark_theme fs filepath).1.1 !! q) = perms <$> (fs !! q))
  /\ (forall q, q <> filepath -> (apply_dark_theme fs filepath).1.1 !! q = fs !! q).
Proof.
  destruct (apply_dark_theme_files fs filepath)
    as [(-> & _) | (f & content & Hf & Hr & Hw & _ & _ & ->)]; [done |].
  simpl. split; [| split].
  - apply dom_insert_lookup_L. by rewrite Hf.
  - intros q. apply (insert_perms _ _ _ f); [done |].
    unfold perms. simpl. by rewrite Hr, Hw.
  - intros q Hq. by rewrite lookup_insert_ne.
Qed.

Lemma batch_frame (files : list string) (fs : gmap string file) (updated : nat) :
  dom (batch files fs updated).1.1 = dom fs
  /\ (forall q, perms <$> ((batch files fs updated).1.1 !! q) = perms <$> (fs !! q))
  /\ (forall q, q ∉ files -> (batch files fs updated).1.1 !! q = fs !! q).
Proof.
  revert fs updated. induction files as [|p files IH]; intros fs updated.
  - done.
  - rewrite Batch.batch_cons.
    pose proof (apply_dark_theme_frame fs p) as (Hd & Hp & Ho).
    destruct (apply_dark_theme fs p) as [[fs1 out1] ret]. simpl in *.
    specialize (IH fs1 (if ret then updated + 1 else updated)) as (Hd' & Hp' & Ho').
    destruct (batch files fs1 _) as [[fs2 out2] n]. simpl in *.
    split; [congruence |]. split.
    + intros q. by rewrite Hp', Hp.
    + intros q Hq. apply not_elem_of_cons in Hq as [Hqp Hq].
      by rewrite Ho', Ho.
Qed.

(** Every write of a run is reported, every report stands for a write,
    and the count is the number of writes. *)
Lemma batch_written (files : list string) (fs : gmap string file) (updated : nat) :
  (written (batch files fs updated).1.2).*1 = updated_files (batch files fs updated).1.2
  /\ (batch files fs updated).2 = updated + length (written (batch files fs updated).1.2)
  /\ (written (batch files fs updated).1.2 = [] -> (batch files fs updated).1.1 = fs).
Proof.
  revert fs updated. induction files as [|p files IH]; intros fs updated.
  - simpl. repeat split; lia.
  - rewrite Batch.batch_cons.
    destruct (apply_dark_theme_files fs p)
      as [(Hfs & Hret & Hw & Hu) | (f & content & _ & _ & _ & _ & _ & Heq)].
    + destruct (apply_dark_theme fs p) as [[fs1 out1] ret]. simpl in *. subst fs1 ret.
      specialize (IH fs updated) as (IH1 & IH2 & IH3).
      destruct (batch files fs updated) as [[fs2 out2] n]. simpl in *.
      unfold written, updated_files in *. rewrite !omap_app, Hw, Hu. simpl.
      repeat split; done.
    + rewrite Heq.
      match goal with
      | |- context [batch files ?f ?n] =>
          specialize (IH f n) as (IH1 & IH2 & IH3);
          destruct (batch files f n) as [[fs2 out2] n2]
      end.
      simpl in *. split; [by f_equal |]. split; [lia | done].
Qed.

End Files.

(** ** The texts that the pass leaves as they are *)

Module Fixed.

Lemma transform_literal_fixed (content : string) :
  transform_literal content = content <->
  Forall (fun rule => Leftmost.absent rule.1 content) REPLACEMENTS.
Proof.
  split.
  - intros Heq.
    apply (OverlapFacts.foldl_weight REPLACEMENTS content);
      [apply ReFacts.REPLACEMENTS_nonempty | vm_compute; reflexivity |].
    fold (transform_literal content). by rewrite Heq.
  - apply LeftmostFacts.transform_literal_absent.
Qed.

Lemma transform_fixed (content : string) :
  transform content = Ok content <->
  Forall (fun rule => Leftmost.absent rule.1 content) REPLACEMENTS.
Proof.
  rewrite ReFacts.transform_eq, <- transform_literal_fixed.
  split; [by intros [= ->] | by intros ->].
Qed.

End Fixed.

(** ** The pass, beyond the claims *)

(** X1.  The rules for [hover:bg-gray-50], for [hover:bg-gray-100] and for
    [className=] followed by [bg-gray-50] in quotes never change anything:
    when their turn comes, the rules for [bg-gray-50] and [bg-gray-100]
    have removed what they look for, and no rule in between writes it
    back.  The pass is the pass over the sixteen other rules. *)
Theorem shadowed_rules_never_act (content : string) :
  transform content
  = for_each (fun content rule => Re.sub rule.1 rule.2 content) live_rules content.
Proof.
  rewrite ReFacts.transform_eq.
  rewrite ReFacts.for_each_literal by (vm_compute; reflexivity).
  f_equal. unfold transform_literal.
  assert (REPLACEMENTS
          = firstn 15 REPLACEMENTS ++ filter shadowed REPLACEMENTS ++ skipn 18 REPLACEMENTS)
    as HR by (vm_compute; reflexivity).
  assert (live_rules = firstn 15 REPLACEMENTS ++ skipn 18 REPLACEMENTS)
    as -> by (vm_compute; reflexivity).
  rewrite HR at 1. rewrite !foldl_app. f_equal.
  set (s := foldl _ content (firstn 15 REPLACEMENTS)).
  assert (forall p, Overlap.clears p (firstn 15 REPLACEMENTS) = true ->
                    Leftmost.absent p s) as Habs.
  { intros p Hp. apply OverlapFacts.clears_sound; [vm_compute; reflexivity | done]. }
  assert (filter shadowed REPLACEMENTS
          = [ ("hover:bg-gray-50", "hover:bg-white/5 transition-colors");
              ("hover:bg-gray-100", "hover:bg-white/10 transition-colors");
              ("className=" +:+ q "bg-gray-50", "className=" +:+ q "bg-white/5") ])
    as -> by (vm_compute; reflexivity).
  simpl.
  rewrite (LeftmostFacts.str_replace_absent "hover:bg-gray-50")
    by (first [reflexivity | apply Habs; vm_compute; reflexivity]).
  rewrite (LeftmostFacts.str_replace_absent "hover:bg-gray-100")
    by (first [reflexivity | apply Habs; vm_compute; reflexivity]).
  rewrite (LeftmostFacts.str_replace_absent ("className=" +:+ q "bg-gray-50"))
    by (first [reflexivity | apply Habs; vm_compute; reflexivity]).
  done.
Qed.


(** X3.  After a pass, the only patterns of the table that the text can
    still hold are the opening [<Card className=], [bg-white] and
    [text-gray-900]; a further pass leaves the text as it is exactly when
    it holds none of these three. *)
Theorem pass_clears_all_but_three (content : string) :
  exists t,
    transform content = Ok t
    /\ Forall (fun rule => lingering rule.1 = true \/ Leftmost.absent rule.1 t) REPLACEMENTS
    /\ (transform t = Ok t <->
        Leftmost.absent card_open t /\ Leftmost.absent "bg-white" t
        /\ Leftmost.absent "text-gray-900" t).
Proof.
  exists (transform_literal content).
  split; [apply ReFacts.transform_eq |].
  assert (Forall (fun rule => lingering rule.1 = true
                              \/ Leftmost.absent rule.1 (transform_literal content))
                 REPLACEMENTS) as Hall.
  { assert (forallb (fun rule : string * string =>
                       lingering rule.1 || Overlap.clears rule.1 REPLACEMENTS)
                    REPLACEMENTS = true) as Hcheck by (vm_compute; reflexivity).
    rewrite forallb_forall in Hcheck. apply Forall_forall. intros rule Hin.
    apply list_elem_of_In, Hcheck, orb_prop in Hin as [Hl | Hc]; [by left | right].
    apply OverlapFacts.clears_sound; [apply ReFacts.REPLACEMENTS_nonempty | done]. }
  split; [done |].
  rewrite Fixed.transform_fixed. split.
  - intros Habs.
    assert (forall p, In p (map fst REPLACEMENTS) ->
                      Leftmost.absent p (transform_literal content)) as Hin.
    { intros p (rule & <- & Hr)%in_map_iff.
      rewrite Forall_forall in Habs. by apply Habs, list_elem_of_In. }
    split; [| split]; apply Hin; unfold REPLACEMENTS; simpl.
    + do 3 right. by left.
    + do 10 right. by left.
    + do 12 right. by left.
  - intros (H1 & H2 & H3). eapply Forall_impl; [apply Hall |].
    intros rule [Hl | Habs]; [| done].
    unfold lingering in Hl.
    apply orb_prop in Hl as [[Hl | Hl]%orb_prop | Hl];
      apply bool_decide_eq_true_1 in Hl; by rewrite Hl.
Qed.

(** X4.  A character that is in no pattern, such as the end of a line,
    cuts the work in two: the pass on a text is the pass on what is
    before the character, the character, and the pass on what is after
    it. *)
Theorem pass_cuts_at_separator (c : ascii) (a b : string) :
  separator c = true ->
  transform (a +:+ String c b)
  = (ta ← transform a; tb ← transform b; Ok (ta +:+ String c tb)).
Proof.
  intros Hsep. rewrite !ReFacts.transform_eq, !bind_Ok. f_equal.
  apply Lines.foldl_sep; [apply ReFacts.REPLACEMENTS_nonempty | done].
Qed.

(** X4 at the end of a line, between a class and a card. *)
Lemma pass_cuts_at_separator_witness :
  transform ("bg-gray-50" +:+ String Re.newline "<Card>")
  = (ta ← transform "bg-gray-50"; tb ← transform "<Card>";
     Ok (ta +:+ String Re.newline tb)).
Proof.
  apply (pass_cuts_at_separator Re.newline "bg-gray-50" "<Card>").
  vm_compute. reflexivity.
Defined.

(** ** One file, beyond the claims *)

(** X5.  A call creates and deletes no file, changes no permission, and
    leaves every file other than the one it was given exactly as it
    was. *)
Theorem apply_dark_theme_touches_one_file (fs : gmap string file) (filepath : string) :
  dom (apply_dark_theme fs filepath).1.1 = dom fs
  /\ (forall q, perms <$> ((apply_dark_theme fs filepath).1.1 !! q) = perms <$> (fs !! q))
  /\ (forall q, q <> filepath -> (apply_dark_theme fs filepath).1.1 !! q = fs !! q).
Proof. apply Files.apply_dark_theme_frame. Qed.

(** ** The batch, beyond the claims *)

(** X8.  A run creates and deletes no file, changes no permission, and
    leaves every file that is not one of its targets exactly as it was. *)
Theorem batch_touches_only_targets (files : list string) (fs : gmap string file) :
  dom (main_on files fs).1 = dom fs
  /\ (forall q, perms <$> ((main_on files fs).1 !! q) = perms <$> (fs !! q))
  /\ (forall q, q ∉ files -> (main_on files fs).1 !! q = fs !! q).
Proof.
  unfold main_on.
  pose proof (Files.batch_frame files fs 0) as H.
  by destruct (batch files fs 0) as [[fs' out] n].
Qed.


(** ** The program on a console and a disk that can fail *)

Module OsFacts.

#[local] Arguments transform_literal : simpl never.
#[local] Arguments transform : simpl never.
#[local] Arguments read_text : simpl never.
#[local] Arguments Os.has_nul : simpl never.

Lemma length_take (n : nat) (s : string) : String.length (Os.take n s) <= n.
Proof.
  revert s. induction n as [|n IH]; intros [|c s]; simpl; try lia.
  specialize (IH s). lia.
Qed.

Lemma take_prefix (n : nat) (s : string) : startswith (Os.take n s) s = true.
Proof.
  revert s. induction n as [|n IH]; intros [|c s]; simpl; try done.
  by rewrite bool_decide_eq_true_2, IH.
Qed.

Ltac open_call :=
  unfold Os.apply_dark_theme, Os.apply_dark_theme_try, Os.apply_dark_theme_except,
    Os.try_except, Os.print, Os.read_text, Os.write_text, Os.store, Os.lift,
    mbind, Os.M_bind, mret, Os.M_ret;
  cbn.

Ltac plain_leaf ev :=
  exists ev; split; [by rewrite <- ?app_assoc, ?app_nil_r | left; done].

(** What a call can do, whatever the console and the disk: it leaves the
    files alone, or it writes the new text of its file, or it leaves a
    part of that text in the file; it returns [True] only after a whole
    write whose line was printed. *)
Lemma apply_cases (E : Os.env) (filepath : string) (fs : gmap string file) (out : list event) :
  exists ev,
    (Os.apply_dark_theme E filepath (fs, out)).1.2 = out ++ ev
    /\ (((Os.apply_dark_theme E filepath (fs, out)).1.1 = fs
         /\ Os.touched ev = [] /\ written ev = [] /\ Os.torn ev = []
         /\ updated_files ev = []
         /\ (Os.apply_dark_theme E filepath (fs, out)).2 <> Ok true)
        \/ (exists f content,
               fs !! filepath = Some f /\ readable f = true /\ writable f = true
               /\ text f = Some content /\ Os.has_nul filepath = false
               /\ transform_literal content <> content
               /\ (((Os.apply_dark_theme E filepath (fs, out)).1.1
                    = <[filepath := File true true (Some (transform_literal content))]> fs
                    /\ Os.touched ev = [filepath]
                    /\ written ev = [(filepath, transform_literal content)]
                    /\ Os.torn ev = []
                    /\ updated_files ev
                       = match (Os.apply_dark_theme E filepath (fs, out)).2 with
                         | Ok true => [filepath]
                         | _ => []
                         end)
                   \/ (exists cut,
                          (Os.apply_dark_theme E filepath (fs, out)).1.1
                          = <[filepath := File true true
                                            (Os.leftover cut (transform_literal content))]> fs
                          /\ Os.touched ev = [filepath]
                          /\ written ev = []
                          /\ Os.torn ev = [(filepath, Os.leftover cut (transform_literal content))]
                          /\ updated_files ev = []
                          /\ (Os.apply_dark_theme E filepath (fs, out)).2 <> Ok true)))).
Proof.
  open_call.
  destruct (Os.stdout_error E (Processando filepath)) as [e0|] eqn:HP; cbn.
  { plain_leaf (@nil event). }
  destruct (Os.has_nul filepath) eqn:Hnul; cbn.
  { destruct (Os.stdout_error E (Erro filepath ValueError)) as [e1|] eqn:HE; cbn.
    - plain_leaf [Print (Processando filepath)].
    - plain_leaf [Print (Processando filepath); Print (Erro filepath ValueError)]. }
  destruct (read_text fs filepath) as [content|e] eqn:Hr; cbn.
  2:{ destruct (Os.stdout_error E (Erro filepath e)) as [e1|] eqn:HE; cbn.
      - plain_leaf [Print (Processando filepath)].
      - plain_leaf [Print (Processando filepath); Print (Erro filepath e)]. }
  rewrite ReFacts.transform_eq. cbn.
  case_bool_decide as Hch; cbn.
  2:{ destruct (Os.stdout_error E (JaAtualizado filepath)) as [e1|] eqn:HJ; cbn.
      - destruct (Os.stdout_error E (Erro filepath e1)) as [e2|] eqn:HE; cbn.
        + plain_leaf [Print (Processando filepath)].
        + plain_leaf [Print (Processando filepath); Print (Erro filepath e1)].
      - plain_leaf [Print (Processando filepath); Print (JaAtualizado filepath)]. }
  apply Paths.read_text_Ok in Hr as (f & Hf & Hrd & Htx). rewrite Hf.
  destruct (writable f) eqn:Hw; cbn.
  2:{ destruct (Os.stdout_error E (Erro filepath PermissionError)) as [e1|] eqn:HE; cbn.
      - plain_leaf [Print (Processando filepath)].
      - plain_leaf [Print (Processando filepath); Print (Erro filepath PermissionError)]. }
  rewrite Hrd.
  destruct (Os.write_fault E filepath (transform_literal content)) as [[e cut]|] eqn:Hwf; cbn.
  - destruct (Os.stdout_error E (Erro filepath e)) as [e1|] eqn:HE; cbn.
    + exists [Print (Processando filepath);
              Torn filepath (Os.leftover cut (transform_literal content))].
      split; [by rewrite <- ?app_assoc |]. right. exists f, content.
      repeat (split; [done |]). right. by exists cut.
    + exists [Print (Processando filepath);
              Torn filepath (Os.leftover cut (transform_literal content));
              Print (Erro filepath e)].
      split; [by rewrite <- ?app_assoc |]. right. exists f, content.
      repeat (split; [done |]). right. by exists cut.
  - destruct (Os.stdout_error E (Atualizado filepath)) as [e1|] eqn:HA; cbn.
    + destruct (Os.stdout_error E (Erro filepath e1)) as [e2|] eqn:HE; cbn.
      * exists [Print (Processando filepath);
                Write filepath (transform_literal content)].
        split; [by rewrite <- ?app_assoc |]. right. exists f, content.
        repeat (split; [done |]). by left.
      * exists [Print (Processando filepath);
                Write filepath (transform_literal content);
                Print (Erro filepath e1)].
        split; [by rewrite <- ?app_assoc |]. right. exists f, content.
        repeat (split; [done |]). by left.
    + exists [Print (Processando filepath);
              Write filepath (transform_literal content);
              Print (Atualizado filepath)].
      split; [by rewrite <- ?app_assoc |]. right. exists f, content.
      repeat (split; [done |]). by left.
Qed.

(** The handler, on a line that prints. *)
Lemma except_printed (E : Os.env) (filepath : string) (e : exn) (w : Os.world) :
  Os.stdout_error E (Erro filepath e) = None ->
  Os.apply_dark_theme_except E filepath e w
  = ((w.1, w.2 ++ [Print (Erro filepath e)]), Ok false).
Proof.
  intros HE. unfold Os.apply_dark_theme_except, Os.print, mbind, Os.M_bind, mret, Os.M_ret.
  by rewrite HE.
Qed.

(** A call on a console that prints every line: it always returns. *)
Lemma call_when_printed (E : Os.env) (filepath : string)
    (fs : gmap string file) (out : list event) :
  Os.prints_all E ->
  Os.apply_dark_theme E filepath (fs, out)
  = if Os.has_nul filepath then
      ((fs, out ++ [Print (Processando filepath); Print (Erro filepath ValueError)]),
       Ok false)
    else
      match read_text fs filepath with
      | Raise e =>
          ((fs, out ++ [Print (Processando filepath); Print (Erro filepath e)]), Ok false)
      | Ok content =>
          if bool_decide (transform_literal content = content) then
            ((fs, out ++ [Print (Processando filepath); Print (JaAtualizado filepath)]),
             Ok false)
          else
            match fs !! filepath with
            | Some f =>
                if writable f then
                  match Os.write_fault E filepath (transform_literal content) with
                  | None =>
                      ((<[filepath := File (readable f) true
                                        (Some (transform_literal content))]> fs,
                        out ++ [Print (Processando filepath);
                                Write filepath (transform_literal content);
                                Print (Atualizado filepath)]),
                       Ok true)
                  | Some (e, cut) =>
                      ((<[filepath := File (readable f) true
                                        (Os.leftover cut (transform_literal content))]> fs,
                        out ++ [Print (Processando filepath);
                                Torn filepath (Os.leftover cut (transform_literal content));
                                Print (Erro filepath e)]),
                       Ok false)
                  end
                else
                  ((fs, out ++ [Print (Processando filepath);
                                Print (Erro filepath PermissionError)]),
                   Ok false)
            | None =>
                Os.apply_dark_theme E filepath (fs, out)
            end
      end.
Proof.
  intros Hp.
  destruct (Os.has_nul filepath) eqn:Hnul.
  { open_call. rewrite ?Hp; cbn. rewrite ?Hnul; cbn. rewrite ?Hp; cbn.
    by rewrite <- app_assoc. }
  destruct (read_text fs filepath) as [content|e] eqn:Hr.
  2:{ open_call. rewrite ?Hp; cbn. rewrite ?Hnul; cbn. rewrite ?Hr; cbn.
      rewrite ?Hp; cbn. by rewrite <- app_assoc. }
  case_bool_decide as Hch.
  { open_call. rewrite ?Hp; cbn. rewrite ?Hnul; cbn. rewrite ?Hr; cbn.
    rewrite ReFacts.transform_eq; cbn.
    rewrite bool_decide_eq_false_2 by (by intros []). cbn.
    rewrite ?Hp; cbn. by rewrite <- app_assoc. }
  destruct (fs !! filepath) as [f|] eqn:Hf; [| done].
  open_call. rewrite ?Hp; cbn. rewrite ?Hnul; cbn. rewrite ?Hr; cbn.
  rewrite ReFacts.transform_eq; cbn.
  rewrite bool_decide_eq_true_2 by done. cbn. rewrite ?Hf; cbn.
  destruct (writable f); cbn.
  - destruct (Os.write_fault E filepath (transform_literal content)) as [[e cut]|]; cbn;
      rewrite ?Hp; cbn; by rewrite <- !app_assoc.
  - rewrite ?Hp; cbn. by rewrite <- app_assoc.
Qed.

(** A call returns [True] exactly when the first line was printed, the
    text read was changed by the pass, the write went through whole and
    its line was printed. *)
Lemma returns_true_iff (E : Os.env) (filepath : string)
    (fs : gmap string file) (out : list event) :
  (Os.apply_dark_theme E filepath (fs, out)).2 = Ok true <->
  Os.stdout_error E (Processando filepath) = None
  /\ Os.has_nul filepath = false
  /\ exists f content,
      fs !! filepath = Some f /\ readable f = true /\ writable f = true
      /\ text f = Some content
      /\ transform_literal content <> content
      /\ Os.write_fault E filepath (transform_literal content) = None
      /\ Os.stdout_error E (Atualizado filepath) = None.
Proof.
  split.
  - open_call.
    destruct (Os.stdout_error E (Processando filepath)) as [e0|] eqn:HP; cbn; [done |].
    destruct (Os.has_nul filepath) eqn:Hnul; cbn.
    { by destruct (Os.stdout_error E (Erro filepath ValueError)). }
    destruct (read_text fs filepath) as [content|e] eqn:Hr; cbn.
    2:{ by destruct (Os.stdout_error E (Erro filepath e)). }
    rewrite ReFacts.transform_eq. cbn.
    case_bool_decide as Hch; cbn.
    2:{ destruct (Os.stdout_error E (JaAtualizado filepath)) as [e1|]; cbn; [| done].
        by destruct (Os.stdout_error E (Erro filepath e1)). }
    apply Paths.read_text_Ok in Hr as (f & Hf & Hrd & Htx). rewrite Hf.
    destruct (writable f) eqn:Hw; cbn.
    2:{ by destruct (Os.stdout_error E (Erro filepath PermissionError)). }
    destruct (Os.write_fault E filepath (transform_literal content)) as [[e cut]|] eqn:Hwf; cbn.
    { by destruct (Os.stdout_error E (Erro filepath e)). }
    destruct (Os.stdout_error E (Atualizado filepath)) as [e1|] eqn:HA; cbn.
    { by destruct (Os.stdout_error E (Erro filepath e1)). }
    intros _. split; [done |]. split; [done |]. by exists f, content.
  - intros (HP & Hnul & f & content & Hf & Hrd & Hw & Htx & Hch & Hwf & HA).
    assert (read_text fs filepath = Ok content) as Hr.
    { apply Paths.read_text_Ok. by exists f. }
    open_call. rewrite HP; cbn. rewrite Hnul; cbn. rewrite Hr; cbn.
    rewrite ReFacts.transform_eq; cbn.
    rewrite bool_decide_eq_true_2 by done. cbn.
    rewrite Hf; cbn. rewrite Hw; cbn. rewrite Hwf; cbn. by rewrite HA.
Qed.

(** What one call prints on a console that prints every line: its first
    line and one line of status. *)
Lemma call_lines (E : Os.env) (filepath : string)
    (fs : gmap string file) (out : list event) :
  Os.prints_all E ->
  exists fs' ev b,
    Os.apply_dark_theme E filepath (fs, out) = ((fs', out ++ ev), Ok b)
    /\ processed ev = [filepath]
    /\ updated_files ev = (if b then [filepath] else [])
    /\ length (unchanged_files ev) + length (failed_files ev) = (if b then 0 else 1).
Proof.
  intros Hp. rewrite (call_when_printed _ _ _ _ Hp).
  destruct (Os.has_nul filepath); [by eexists _, _, _ |].
  destruct (read_text fs filepath) as [content|e] eqn:Hr; [| by eexists _, _, _].
  case_bool_decide; [by eexists _, _, _ |].
  apply Paths.read_text_Ok in Hr as (f & -> & _).
  destruct (writable f); [| by eexists _, _, _].
  destruct (Os.write_fault E filepath (transform_literal content)) as [[e cut]|];
    by eexists _, _, _.
Qed.

Lemma batch_step (E : Os.env) (filepath : string) (rest : list string)
    (updated : nat) (w : Os.world) :
  Os.batch E (filepath :: rest) updated w
  = match Os.apply_dark_theme E filepath w with
    | (w', Ok r) => Os.batch E rest (if r then updated + 1 else updated) w'
    | (w', Raise e) => (w', Raise e)
    end.
Proof. reflexivity. Qed.

(** On a console that prints every line the loop gets to the end of the
    list. *)
Lemma batch_when_printed (E : Os.env) (files : list string) (updated : nat)
    (fs : gmap string file) (out : list event) :
  Os.prints_all E ->
  exists fs' ev,
    Os.batch E files updated (fs, out)
    = ((fs', out ++ ev), Ok (updated + length (updated_files ev)))
    /\ processed ev = files
    /\ length files
       = length (updated_files ev) + length (unchanged_files ev) + length (failed_files ev).
Proof.
  intros Hp. revert updated fs out.
  induction files as [|p files IH]; intros updated fs out.
  - exists fs, []. rewrite app_nil_r. cbn. by rewrite Nat.add_0_r.
  - rewrite batch_step.
    destruct (call_lines E p fs out Hp) as (fs1 & ev1 & b & -> & Hpr & Hup & Hrest).
    destruct (IH (if b then updated + 1 else updated) fs1 (out ++ ev1))
      as (fs2 & ev2 & -> & Hpr2 & Hlen2).
    exists fs2, (ev1 ++ ev2). rewrite <- app_assoc.
    unfold processed, updated_files, unchanged_files, failed_files in *.
    rewrite !omap_app, !length_app, Hpr, Hpr2, Hup.
    split; [| split; [done |]].
    + do 2 f_equal. destruct b; cbn; lia.
    + destruct b; cbn in *; lia.
Qed.

(** Whatever the console and the disk: the reports of an update stand,
    in order, for writes that went through whole; a run that touched no
    file left them all as they were; a run that gets to the end of the
    list has counted the reports. *)
Lemma batch_any (E : Os.env) (files : list string) (updated : nat)
    (fs : gmap string file) (out : list event) :
  exists ev,
    (Os.batch E files updated (fs, out)).1.2 = out ++ ev
    /\ updated_files ev `sublist_of` (written ev).*1
    /\ (written ev).*1 `sublist_of` Os.touched ev
    /\ Os.touched ev `sublist_of` files
    /\ (Os.touched ev = [] -> (Os.batch E files updated (fs, out)).1.1 = fs)
    /\ (forall n, (Os.batch E files updated (fs, out)).2 = Ok n ->
                  n = updated + length (updated_files ev)).
Proof.
  revert updated fs out. induction files as [|p files IH]; intros updated fs out.
  - exists []. rewrite app_nil_r. cbn. repeat split; try done.
    intros n [= <-]. lia.
  - rewrite batch_step.
    destruct (apply_cases E p fs out) as (ev1 & Hout & Hcase).
    destruct (Os.apply_dark_theme E p (fs, out)) as [[fs1 out1] r] eqn:Hcall.
    cbn in Hout, Hcase. subst out1.
    assert (updated_files ev1 `sublist_of` (written ev1).*1
            /\ (written ev1).*1 `sublist_of` Os.touched ev1
            /\ Os.touched ev1 `sublist_of` [p]
            /\ (Os.touched ev1 = [] -> fs1 = fs)
            /\ updated_files ev1 = match r with Ok true => [p] | _ => [] end) as Hone.
    { destruct Hcase as [(-> & Ht & Hw & _ & Hu & Hr)
                        | (f & content & _ & _ & _ & _ & _ & _ &
                           [(-> & Ht & Hw & _ & Hu) | (cut & -> & Ht & Hw & _ & Hu & Hr)])].
      - rewrite Ht, Hw, Hu. repeat split; try done; try apply sublist_nil_l.
        by destruct r as [[]|].
      - rewrite Ht, Hw, Hu. repeat split; try done.
        destruct r as [[]|]; [done | apply sublist_nil_l | apply sublist_nil_l].
      - rewrite Ht, Hw, Hu. repeat split; try done; try apply sublist_nil_l.
        by destruct r as [[]|]. }
    destruct Hone as (H1 & H2 & H3 & H4 & H5).
    destruct r as [b|e].
    + destruct (IH (if b then updated + 1 else updated) fs1 (out ++ ev1))
        as (ev2 & Hout2 & G1 & G2 & G3 & G4 & G5).
      exists (ev1 ++ ev2). rewrite Hout2, <- app_assoc.
      unfold updated_files, written, Os.touched in *.
      rewrite !omap_app, ?fmap_app.
      split; [done |].
      split; [by apply sublist_app |].
      split; [by apply sublist_app |].
      split; [by apply (sublist_app _ [p]) |].
      split.
      * intros [Ht1 Ht2]%app_eq_nil. rewrite (G4 Ht2). by apply H4.
      * intros n Hn. rewrite (G5 n Hn), length_app, H5. destruct b; cbn; lia.
    + exists ev1. cbn. split; [done |]. split; [done |]. split; [done |].
      split; [transitivity [p]; [done | apply sublist_skip, sublist_nil_l] |].
      split; [done | done].
Qed.



End OsFacts.

(** * The claims on a console and a disk that can fail *)

(** C5, amended.  For a file that is read with text [content], and [t] the
    text after the pass.  When [t] equals [content] (as it does when no
    pattern occurs in [content]) the call touches no file, whatever the
    console and the disk.  On a console that prints every line: when [t]
    equals [content] the call returns [False]; when [t] differs and the
    write goes through, [t] is in the file, written once, and the call
    returns [True]; when [t] differs and the file may not be opened for
    writing, the files are the same and the call returns [False]; when
    [t] differs and the write fails on the way, the file holds what the
    write left (a beginning of [t], or bytes that are no text), the error
    is reported and the call returns [False]. *)
Theorem changed_text_is_written_unless_the_write_fails
    (E : Os.env) (fs : gmap string file) (out : list event)
    (filepath : string) (f : file) (content : string) :
  Os.has_nul filepath = false ->
  fs !! filepath = Some f -> readable f = true -> text f = Some content ->
  exists t,
    transform content = Ok t
    /\ (Forall (fun rule => Leftmost.absent rule.1 content) REPLACEMENTS -> t = content)
    /\ (t = content ->
        (Os.apply_dark_theme E filepath (fs, out)).1.1 = fs
        /\ exists ev, (Os.apply_dark_theme E filepath (fs, out)).1.2 = out ++ ev
                      /\ Os.touched ev = [])
    /\ (Os.prints_all E ->
        Os.apply_dark_theme E filepath (fs, out)
        = if bool_decide (t = content) then
            ((fs, out ++ [Print (Processando filepath); Print (JaAtualizado filepath)]),
             Ok false)
          else if writable f then
            match Os.write_fault E filepath t with
            | None =>
                ((<[filepath := File true true (Some t)]> fs,
                  out ++ [Print (Processando filepath); Write filepath t;
                          Print (Atualizado filepath)]),
                 Ok true)
            | Some (e, cut) =>
                ((<[filepath := File true true (Os.leftover cut t)]> fs,
                  out ++ [Print (Processando filepath); Torn filepath (Os.leftover cut t);
                          Print (Erro filepath e)]),
                 Ok false)
            end
          else
            ((fs, out ++ [Print (Processando filepath);
                          Print (Erro filepath PermissionError)]),
             Ok false)).
Proof.
  intros Hnul Hf Hrd Htx. exists (transform_literal content).
  assert (read_text fs filepath = Ok content) as Hread.
  { apply Paths.read_text_Ok. by exists f. }
  split; [apply ReFacts.transform_eq |].
  split; [apply LeftmostFacts.transform_literal_absent |].
  split.
  - intros Heq.
    destruct (OsFacts.apply_cases E filepath fs out)
      as (ev & Hout & [(Hfs & Ht & _) | (f' & content' & Hf' & _ & _ & Htx' & _ & Hch & _)]).
    + split; [done |]. by exists ev.
    + rewrite Hf in Hf'. injection Hf' as <-.
      rewrite Htx in Htx'. injection Htx' as <-. done.
  - intros Hp. rewrite (OsFacts.call_when_printed _ _ _ _ Hp), Hnul, Hread, Hf, Hrd.
    by case_bool_decide.
Qed.

(** The amended C5 at a writable page whose text the pass changes, on a
    disk that is full. *)
Lemma changed_text_is_written_unless_the_write_fails_witness :
  exists t,
    transform "bg-gray-50" = Ok t
    /\ (Forall (fun rule => Leftmost.absent rule.1 "bg-gray-50") REPLACEMENTS
        -> t = "bg-gray-50")
    /\ (t = "bg-gray-50" ->
        (Os.apply_dark_theme Os.full_disk "page.tsx" (open_page, [])).1.1 = open_page
        /\ exists ev,
            (Os.apply_dark_theme Os.full_disk "page.tsx" (open_page, [])).1.2 = [] ++ ev
            /\ Os.touched ev = [])
    /\ (Os.prints_all Os.full_disk ->
        Os.apply_dark_theme Os.full_disk "page.tsx" (open_page, [])
        = if bool_decide (t = "bg-gray-50") then
            ((open_page,
              [] ++ [Print (Processando "page.tsx"); Print (JaAtualizado "page.tsx")]),
             Ok false)
          else if true then
            match Os.write_fault Os.full_disk "page.tsx" t with
            | None =>
                ((<["page.tsx" := File true true (Some t)]> open_page,
                  [] ++ [Print (Processando "page.tsx"); Write "page.tsx" t;
                         Print (Atualizado "page.tsx")]),
                 Ok true)
            | Some (e, cut) =>
                ((<["page.tsx" := File true true (Os.leftover cut t)]> open_page,
                  [] ++ [Print (Processando "page.tsx"); Torn "page.tsx" (Os.leftover cut t);
                         Print (Erro "page.tsx" e)]),
                 Ok false)
            end
          else
            ((open_page,
              [] ++ [Print (Processando "page.tsx");
                     Print (Erro "page.tsx" PermissionError)]),
             Ok false)).
Proof.
  apply (changed_text_is_written_unless_the_write_fails Os.full_disk open_page []
           "page.tsx" (File true true (Some "bg-gray-50")) "bg-gray-50");
    vm_compute; reflexivity.
Defined.

(** C6.  On a console that cannot print the cross of the error line, the
    first target that fails ends the run: with an unchanged page, a path
    that does not exist and a page to convert, the run stops after the
    first line of the missing path, with the exception raised in the
    handler; the third page is never processed and no count is printed.
    On a console that prints every line the run gets to the end whatever
    fails: every target is processed in order, and the count printed is
    the number of files reported as updated. *)
Theorem unprintable_error_line_ends_the_batch :
  Os.main_on Os.narrow_console mixed_targets (mixed_pages, [])
  = ((mixed_pages,
      [ Print Aplicando;
        Print (Processando "done.tsx"); Print (JaAtualizado "done.tsx");
        Print (Processando "missing.tsx") ]),
     Raise UnicodeEncodeError)
  /\ (forall E files fs,
         Os.prints_all E ->
         exists fs' ev,
           Os.main_on E files (fs, [])
           = ((fs', Print Aplicando :: ev
                    ++ [Print (Concluido (length (updated_files ev)))]),
              Ok tt)
           /\ processed ev = files
           /\ length files
              = length (updated_files ev) + length (unchanged_files ev)
                + length (failed_files ev)).
Proof.
  split; [vm_compute; reflexivity |].
  intros E files fs Hp.
  destruct (OsFacts.batch_when_printed E files 0 fs [Print Aplicando] Hp)
    as (fs' & ev & Hb & Hpr & Hlen).
  exists fs', ev. split; [| done].
  unfold Os.main_on, mbind, Os.M_bind, Os.print.
  rewrite Hp. cbn. rewrite Hb. cbn. by rewrite Hp.
Qed.

(** C8.  On a console that cannot print the cross of the error line, the
    call on a missing file does not return [False]: the exception raised
    by the [print] of the handler leaves the call.  Whatever the console
    and the disk, the call returns [True] exactly when its first line was
    printed, the text read was changed by the pass, the write went through
    whole and its line was printed.  On a console that prints every line
    it returns [False] in every other case, after an error as for a text
    left as it was. *)
Theorem unprintable_error_line_leaves_the_handler :
  Os.apply_dark_theme Os.narrow_console "missing.tsx" (∅, [])
  = ((∅, [Print (Processando "missing.tsx")]), Raise UnicodeEncodeError)
  /\ (forall E filepath fs out,
         (Os.apply_dark_theme E filepath (fs, out)).2 = Ok true <->
         Os.stdout_error E (Processando filepath) = None
         /\ Os.has_nul filepath = false
         /\ exists f content t,
             fs !! filepath = Some f /\ readable f = true /\ writable f = true
             /\ text f = Some content
             /\ transform content = Ok t /\ t <> content
             /\ Os.write_fault E filepath t = None
             /\ Os.stdout_error E (Atualizado filepath) = None)
  /\ (forall E filepath fs out,
         Os.prints_all E ->
         ((Os.apply_dark_theme E filepath (fs, out)).2 = Ok true
          \/ (Os.apply_dark_theme E filepath (fs, out)).2 = Ok false)
         /\ (forall e out',
                Os.apply_dark_theme_try E filepath
                  (fs, out ++ [Print (Processando filepath)]) = (out', Raise e) ->
                (Os.apply_dark_theme E filepath (fs, out)).2 = Ok false)
         /\ (forall content,
                read_text fs filepath = Ok content -> transform content = Ok content ->
                (Os.apply_dark_theme E filepath (fs, out)).2 = Ok false)).
Proof.
  split; [vm_compute; reflexivity |].
  split.
  - intros E filepath fs out. rewrite OsFacts.returns_true_iff.
    split.
    + intros (HP & Hnul & f & content & Hf & Hrd & Hw & Htx & Hch & Hwf & HA).
      split; [done |]. split; [done |].
      exists f, content, (transform_literal content).
      by rewrite ReFacts.transform_eq.
    + intros (HP & Hnul & f & content & t & Hf & Hrd & Hw & Htx & Ht & Hch & Hwf & HA).
      rewrite ReFacts.transform_eq in Ht. injection Ht as <-.
      split; [done |]. split; [done |]. by exists f, content.
  - intros E filepath fs out Hp.
    destruct (OsFacts.call_lines E filepath fs out Hp) as (fs' & ev & b & Hcall & _).
    split; [rewrite Hcall; destruct b; [by left | by right] |].
    split.
    + intros e w' Htry.
      unfold Os.apply_dark_theme, mbind, Os.M_bind, Os.print, Os.try_except.
      rewrite Hp. cbn. rewrite Htry.
      by rewrite (OsFacts.except_printed _ _ _ _ (Hp _)).
    + intros content Hr Ht.
      rewrite ReFacts.transform_eq in Ht. injection Ht as Ht.
      rewrite (OsFacts.call_when_printed _ _ _ _ Hp).
      destruct (Os.has_nul filepath); [done |].
      rewrite Hr. by rewrite bool_decide_eq_true_2.
Qed.

(** * Further properties on a console and a disk that can fail *)

(** X6.  Whatever the console and the disk, a call leaves the files in
    one of three states.  Either they are all as before and nothing was
    written; or the text read was changed by the pass and the target holds
    the whole new text, written once; or the text read was changed by the
    pass and the target holds what a failed write left of the new text: a
    beginning of it, or bytes that can no longer be read as text.  The
    call returns [True] in the second case only: after [True], reading
    the target again yields the text the pass made of the text read
    before, which differs from it. *)
Theorem call_leaves_old_new_or_cut_text (E : Os.env) (filepath : string)
    (fs : gmap string file) (out : list event) :
  exists ev,
    (Os.apply_dark_theme E filepath (fs, out)).1.2 = out ++ ev
    /\ (((Os.apply_dark_theme E filepath (fs, out)).1.1 = fs
         /\ Os.touched ev = []
         /\ (Os.apply_dark_theme E filepath (fs, out)).2 <> Ok true)
        \/ exists content t,
            read_text fs filepath = Ok content
            /\ transform content = Ok t /\ t <> content
            /\ ((read_text (Os.apply_dark_theme E filepath (fs, out)).1.1 filepath = Ok t
                 /\ written ev = [(filepath, t)] /\ Os.torn ev = [])
                \/ exists cut,
                    read_text (Os.apply_dark_theme E filepath (fs, out)).1.1 filepath
                    = match cut with
                      | Some n => Ok (Os.take n t)
                      | None => Raise UnicodeDecodeError
                      end
                    /\ (forall n, cut = Some n -> startswith (Os.take n t) t = true)
                    /\ written ev = []
                    /\ Os.torn ev = [(filepath, Os.leftover cut t)]
                    /\ (Os.apply_dark_theme E filepath (fs, out)).2 <> Ok true))
    /\ ((Os.apply_dark_theme E filepath (fs, out)).2 = Ok true ->
        exists content t,
          read_text fs filepath = Ok content
          /\ transform content = Ok t /\ t <> content
          /\ read_text (Os.apply_dark_theme E filepath (fs, out)).1.1 filepath = Ok t
          /\ written ev = [(filepath, t)]).
Proof.
  destruct (OsFacts.apply_cases E filepath fs out) as (ev & Hout & Hcase).
  exists ev. split; [done |].
  destruct Hcase
    as [(Hfs & Ht & _ & _ & _ & Hr)
       | (f & content & Hf & Hrd & Hw & Htx & _ & Hch
          & [(Hfs & _ & Hwr & Htn & _) | (cut & Hfs & _ & Hwr & Htn & _ & Hr)])].
  - split; [by left | done].
  - assert (read_text fs filepath = Ok content) as Hread.
    { apply Paths.read_text_Ok. by exists f. }
    assert (read_text (Os.apply_dark_theme E filepath (fs, out)).1.1 filepath
            = Ok (transform_literal content)) as Hnew.
    { rewrite Hfs. apply Paths.read_text_Ok. eexists. by rewrite lookup_insert_eq. }
    split.
    + right. exists content, (transform_literal content).
      rewrite ReFacts.transform_eq. repeat (split; [done |]). by left.
    + intros _. exists content, (transform_literal content).
      by rewrite ReFacts.transform_eq.
  - assert (read_text fs filepath = Ok content) as Hread.
    { apply Paths.read_text_Ok. by exists f. }
    split; [| done].
    right. exists content, (transform_literal content).
    rewrite ReFacts.transform_eq. repeat (split; [done |]).
    right. exists cut. rewrite Hfs.
    split; [unfold read_text; rewrite lookup_insert_eq; by destruct cut |].
    split; [intros n _; apply OsFacts.take_prefix | done].
Qed.

(** X7.  Whatever the console and the disk, in a run of the driver the
    files reported as updated are, in order, among the files whose write
    went through whole, these among the files the run wrote to, and these
    among the targets; a run that wrote to no file leaves all files as
    they were; and a run that gets to its end has printed, as its last
    line, the number of files reported as updated. *)
Theorem reported_updates_were_written (E : Os.env) (files : list string)
    (fs : gmap string file) :
  updated_files (Os.main_on E files (fs, [])).1.2
    `sublist_of` (written (Os.main_on E files (fs, [])).1.2).*1
  /\ (written (Os.main_on E files (fs, [])).1.2).*1
       `sublist_of` Os.touched (Os.main_on E files (fs, [])).1.2
  /\ Os.touched (Os.main_on E files (fs, [])).1.2 `sublist_of` files
  /\ (Os.touched (Os.main_on E files (fs, [])).1.2 = [] ->
      (Os.main_on E files (fs, [])).1.1 = fs)
  /\ ((Os.main_on E files (fs, [])).2 = Ok tt ->
      last (Os.main_on E files (fs, [])).1.2
      = Some (Print (Concluido
                       (length (updated_files (Os.main_on E files (fs, [])).1.2))))).
Proof.
  unfold Os.main_on, mbind, Os.M_bind, Os.print. cbn.
  destruct (Os.stdout_error E Aplicando) as [e|] eqn:HA; cbn.
  { repeat split; try done. apply sublist_nil_l. }
  destruct (OsFacts.batch_any E files 0 fs [Print Aplicando])
    as (ev & Hout & Hs1 & Hs2 & Hs3 & Hfs & Hn).
  destruct (Os.batch E files 0 (fs, [Print Aplicando])) as [[fs1 out1] [n|e]] eqn:Hb;
    cbn in *; subst out1.
  - specialize (Hn n eq_refl). subst n.
    destruct (Os.stdout_error E (Concluido (length (updated_files ev)))) as [e|] eqn:HC;
      cbn.
    + repeat split; try done.
    + unfold updated_files, written, Os.touched in *.
      rewrite !omap_app. cbn. rewrite !app_nil_r.
      repeat split; try done.
      intros _. by rewrite app_comm_cons, last_snoc.
  - repeat split; try done.
Qed.





(** X11.  An exception leaves a call only from a [print]: from the first
    line, printed before the [try], or from the error line, printed in the
    handler for an exception caught. *)
Theorem call_raises_only_from_print (E : Os.env) (filepath : string)
    (fs : gmap string file) (out : list event) (e : exn) :
  (Os.apply_dark_theme E filepath (fs, out)).2 = Raise e ->
  Os.stdout_error E (Processando filepath) = Some e
  \/ exists caught, Os.stdout_error E (Erro filepath caught) = Some e.
Proof.
  unfold Os.apply_dark_theme, mbind, Os.M_bind, Os.print, Os.try_except.
  destruct (Os.stdout_error E (Processando filepath)) as [e0|]; cbn.
  { intros [= <-]. by left. }
  destruct (Os.apply_dark_theme_try E filepath _) as [w' [b|caught]]; cbn; [done |].
  unfold Os.apply_dark_theme_except, mbind, Os.M_bind, Os.print.
  destruct (Os.stdout_error E (Erro filepath caught)) as [e1|] eqn:HE; cbn; [| done].
  intros [= <-]. right. by exists caught.
Qed.

(** X11 at a missing file, on a console without the cross. *)
Lemma call_raises_only_from_print_witness :
  Os.stdout_error Os.narrow_console (Processando "missing.tsx") = Some UnicodeEncodeError
  \/ exists caught,
      Os.stdout_error Os.narrow_console (Erro "missing.tsx" caught)
      = Some UnicodeEncodeError.
Proof.
  apply (call_raises_only_from_print Os.narrow_console "missing.tsx" ∅ []).
  vm_compute. reflexivity.
Defined.

(** X12.  Whatever the console and the disk, when opening, reading or
    decoding the file raises, the call writes to no file and leaves them
    all as they were; it does not return [True]. *)
Theorem read_failure_touches_no_file (E : Os.env) (filepath : string)
    (fs : gmap string file) (out : list event) (e : exn) :
  (Os.read_text filepath (fs, out)).2 = Raise e ->
  (Os.apply_dark_theme E filepath (fs, out)).1.1 = fs
  /\ (exists ev,
         (Os.apply_dark_theme E filepath (fs, out)).1.2 = out ++ ev
         /\ Os.touched ev = [] /\ written ev = [])
  /\ (Os.apply_dark_theme E filepath (fs, out)).2 <> Ok true.
Proof.
  intros Hr.
  destruct (OsFacts.apply_cases E filepath fs out)
    as (ev & Hout & [(Hfs & Ht & Hw & _ & _ & Hret)
                    | (f & content & Hf & Hrd & _ & Htx & Hnul & _)]).
  - split; [done |]. split; [by exists ev | done].
  - unfold Os.read_text in Hr. cbn in Hr. rewrite Hnul in Hr.
    assert (read_text fs filepath = Ok content) as Hread.
    { apply Paths.read_text_Ok. by exists f. }
    by rewrite Hread in Hr.
Qed.

(** X12 at a missing file, on a console without the cross. *)
Lemma read_failure_touches_no_file_witness :
  (Os.apply_dark_theme Os.narrow_console "missing.tsx" (∅, [])).1.1 = ∅
  /\ (exists ev,
         (Os.apply_dark_theme Os.narrow_console "missing.tsx" (∅, [])).1.2 = [] ++ ev
         /\ Os.touched ev = [] /\ written ev = [])
  /\ (Os.apply_dark_theme Os.narrow_console "missing.tsx" (∅, [])).2 <> Ok true.
Proof.
  apply (read_failure_touches_no_file Os.narrow_console "missing.tsx" ∅ []
           FileNotFoundError).
  vm_compute. reflexivity.
Defined.
